(** * PaymentChannel.js: state reconciliation of a payment channel

    A shallow embedding of [src/PaymentChannel.js] (class [PaymentChannel])
    and the properties of its state synchronisation.

    Conventions of the embedding.
    - A JavaScript Number is an IEEE-754 binary64 value, modelled by the
      standard library's [spec_float] with [prec = 53] and [emax = 1024].
    - A [BigNumber] (bignumber.js) is an arbitrary-precision value; the
      program only ever builds non-negative integers and NaN.
    - A byte array ([Uint8Array], [Buffer]) is a [list byte].
    - An object literal is a finite map from property names to values; the
      objects that outlive a call live in a heap and are reached through
      references, so that aliasing is visible.
    - An [await]ed call of a collaborator either resolves or rejects; an
      exception thrown in an [async] method rejects its promise.
    - Calls of [logger] have no effect on the channel and are left out. *)

From Stdlib Require Import ZArith Lia List.
From Stdlib.Strings Require Import Ascii String Byte.
From Stdlib Require Import SpecFloat.
From stdpp Require Import gmap strings list fin_maps.

Local Open Scope string_scope.
Local Open Scope Z_scope.

(* ===================================================================== *)
(** ** Numbers *)
(* ===================================================================== *)

Module Number.

Definition prec : Z := 53.
Definition emax : Z := 1024.

(** The Number nearest to an integer (ties to even): what [ToNumber]
    yields on a decimal rendering of that integer. *)
Definition of_Z (z : Z) : spec_float := binary_normalize prec emax z 0 false.

(** [x - y] on Numbers. *)
Definition sub (x y : spec_float) : spec_float := SFsub prec emax x y.

(** The integer a Number denotes, when it is finite and integral. *)
Definition to_Z (x : spec_float) : option Z :=
  match x with
  | S754_zero _ => Some 0
  | S754_finite s m e =>
      if 0 <=? e then Some (cond_Zopp s (Z.pos m * 2 ^ e))
      else if (Z.pos m) mod 2 ^ (- e) =? 0
           then Some (cond_Zopp s (Z.pos m / 2 ^ (- e)))
           else None
  | S754_infinity _ | S754_nan => None
  end.

End Number.

(** [x] is the Number of sign [s] whose magnitude is the integer [v],
    normalised to a mantissa of 53 digits. *)
Definition holds_exactly (x : spec_float) (s : bool) (v : positive) : Prop :=
  ∃ m, x = S754_finite s m (Z.pos (digits2_pos v) - 53)
       ∧ Z.pos m = Z.pos v * 2 ^ (53 - Z.pos (digits2_pos v)).

(* ===================================================================== *)
(** ** bignumber.js values *)
(* ===================================================================== *)

Inductive BigNumber : Type :=
| BN_int (n : Z)
| BN_NaN.

(** [new BigNumber(v)] for a Number [v] that is a 32-bit integer: the
    constructor's fast path ([v === ~~v]) keeps the integer as it is. *)
Definition BigNumber_of_int32 (v : Z) : BigNumber := BN_int v.

(** bignumber.js's [ALPHABET], cut to base 16 ([ALPHABET.slice(0, 16)]). *)
Definition ALPHABET16 : string := "0123456789abcdef".

(** [s.indexOf(c)], counting from [i]; [None] stands for [-1]. *)
Fixpoint indexOf (c : ascii) (s : string) (i : Z) : option Z :=
  match s with
  | EmptyString => None
  | String c' s' => if Ascii.eqb c c' then Some i else indexOf c s' (i + 1)
  end.

Definition alphabet16_index (c : ascii) : option Z := indexOf c ALPHABET16 0.

(** Value of a string of base-16 digits, most significant first, on top of
    an accumulator; [None] as soon as a character is not a digit. *)
Fixpoint parse_base16 (acc : Z) (s : string) : option Z :=
  match s with
  | EmptyString => Some acc
  | String c s' =>
      match alphabet16_index c with
      | Some d => parse_base16 (16 * acc + d) s'
      | None => None
      end
  end.

(** [new BigNumber(str)] on the strings [_uint8ArrayToBN] builds: [0x]
    followed by lower-case hexadecimal digits.

    Such a string fails bignumber.js's [isNumeric] test and reaches
    [parseNumeric], whose [basePrefix] pattern
    [/^(-?)0([xbo])(?=\w[\w.]*$)/i] strips the [0x] only when at least one
    word character follows it; the remainder is then read in base 16.
    The bare prefix [0x] does not match the pattern, the string is left as
    it is, and the result is NaN (bignumber.js throws only when its [DEBUG]
    switch is set, which this program never does).

    Every other form of literal (sign, fraction, exponent, other prefixes,
    upper case) is outside the fragment modelled here and is never passed
    by this program, see [hex_literal_shape] below; bignumber.js's exponent
    limit of 1e9 decimal digits is likewise out of reach of a string. *)
Definition BigNumber_new (str : string) : BigNumber :=
  match str with
  | String "0" (String "x" digits) =>
      match digits with
      | EmptyString => BN_NaN
      | String _ _ =>
          match parse_base16 0 digits with
          | Some n => BN_int n
          | None => BN_NaN
          end
      end
  | _ => BN_NaN
  end%char.

(* ===================================================================== *)
(** ** Buffers *)
(* ===================================================================== *)

Definition byte_to_Z (b : byte) : Z := Z.of_N (Byte.to_N b).

(** Storing a Number into a [Uint8Array] cell keeps its low eight bits. *)
Definition ToUint8 (z : Z) : byte :=
  match Byte.of_N (Z.to_N (z mod 256)) with
  | Some b => b
  | None => x00
  end.

(** The character [Buffer] prints for a hexadecimal digit: lower case. *)
Definition hex_digit (d : Z) : ascii :=
  match String.get (Z.to_nat d) "0123456789abcdef" with
  | Some c => c
  | None => "f"%char
  end.

(** [Buffer.from(uint8Array)] copies the bytes. *)
Definition Buffer_from (uint8Array : list byte) : list byte := uint8Array.

(** [buffer.toString('hex')]: two digits per byte, high nibble first. *)
Fixpoint Buffer_toString_hex (buffer : list byte) : string :=
  match buffer with
  | [] => EmptyString
  | b :: rest =>
      String (hex_digit (Z.shiftr (byte_to_Z b) 4))
        (String (hex_digit (Z.land (byte_to_Z b) 15))
           (Buffer_toString_hex rest))
  end.

(** [Buffer.alloc(4)] followed by [writeUInt32BE(value, 0)], for an
    integer [value]: a [RangeError] outside [[0, 2^32 - 1]], otherwise the
    four bytes, most significant first. *)
Definition writeUInt32BE (value : Z) : option (list byte) :=
  if (0 <=? value) && (value <=? 4294967295)
  then Some [ ToUint8 (Z.shiftr value 24);
              ToUint8 (Z.shiftr value 16);
              ToUint8 (Z.shiftr value 8);
              ToUint8 value ]
  else None.

(** [PaymentChannel._uint8ArrayToBN] *)
Definition _uint8ArrayToBN (uint8Array : list byte) : BigNumber :=
  let buffer := Buffer_from uint8Array in
  let hex := "0x" ++ Buffer_toString_hex buffer in
  BigNumber_new hex.

(** The big-endian unsigned integer a byte array denotes (the reading the
    specification asks for), on top of an accumulator. *)
Fixpoint be_value (acc : Z) (bs : list byte) : Z :=
  match bs with
  | [] => acc
  | b :: rest => be_value (256 * acc + byte_to_Z b) rest
  end.

(* ===================================================================== *)
(** ** Values, objects and the heap *)
(* ===================================================================== *)

(** The JavaScript values this class handles.  [VUint n] is an unsigned
    integer as the contract binding hands it over: the binding
    ([MPEContract], a collaborator outside this class) answers a read with
    the [uint] fields [nonce], [expiration] and [value], which web3
    renders as decimal strings.  The class never inspects such a value,
    it only stores it and subtracts from it. *)
Inductive value : Type :=
| VUndefined
| VNumber (x : spec_float)
| VUint (n : N)
| VBigNumber (b : BigNumber).

(** [ToNumber], which the [-] operator applies to both operands.  A
    BigNumber goes through its [valueOf], a rendering of its exact value
    ([NaN] for NaN), and a string through the numeric-literal grammar;
    both end in the Number nearest to the integer, ties to even.
    (ECMAScript allows a coarser rounding of literals of more than 20
    significant digits; the concrete inputs below have 16 to 19.) *)
Definition ToNumber (v : value) : spec_float :=
  match v with
  | VUndefined => S754_nan
  | VNumber x => x
  | VUint n => Number.of_Z (Z.of_N n)
  | VBigNumber (BN_int n) => Number.of_Z n
  | VBigNumber BN_NaN => S754_nan
  end.

(** [a - b] *)
Definition js_minus (a b : value) : value :=
  VNumber (Number.sub (ToNumber a) (ToNumber b)).

(** Reading a property, as a destructuring pattern or [o.k] does: a
    missing property reads as [undefined]. *)
Definition prop (o : gmap string value) (k : string) : value :=
  default VUndefined (o !! k).

Definition loc : Type := positive.
Definition handle : Type := nat.

(** What [return] hands back: the receiver itself or a heap object. *)
Inductive ref : Type :=
| RThis
| RObject (l : loc).

Record PaymentChannel : Type := {
  _channelId : Z;
  _web3 : handle;
  _account : handle;
  _mpeContract : handle;
  _paymentChannelStateServiceClient : handle;
  _state : loc
}.

Definition with_state (c : PaymentChannel) (l : loc) : PaymentChannel :=
  {| _channelId := _channelId c;
     _web3 := _web3 c;
     _account := _account c;
     _mpeContract := _mpeContract c;
     _paymentChannelStateServiceClient := _paymentChannelStateServiceClient c;
     _state := l |}.

(** [get channelId()] and [get state()] *)
Definition channelId (c : PaymentChannel) : Z := _channelId c.
Definition state (c : PaymentChannel) : loc := _state c.

Record store : Type := {
  this : PaymentChannel;
  heap : gmap loc (gmap string value)
}.

(** The record [channel.state] refers to. *)
Definition state_of (s : store) : option (gmap string value) :=
  heap s !! state (this s).

(* ===================================================================== *)
(** ** Collaborators *)
(* ===================================================================== *)

Inductive error : Type :=
| ERR_OUT_OF_RANGE
| Failure (reason : string).

Inductive completion (A : Type) : Type :=
| Resolved (a : A)
| Rejected (e : error).
Arguments Resolved {A} a.
Arguments Rejected {A} e.

Record ChannelStateRequest : Type := {
  getChannelId : list byte;
  getSignature : list byte
}.

Record ChannelStateReply : Type := {
  getCurrentNonce : list byte;
  getCurrentSignedAmount : list byte
}.

(** The service object given to the constructor. *)
Record ServiceClient : Type := {
  paymentChannelStateServiceClient : handle
}.

(** The outcome of each call on a collaborator during one invocation:
    [mpeContract.channels(id)], [account.signedData({t, v})] (which may
    throw) and [client.getChannelState(request, callback)], whose
    callback receives either an error or a response. *)
Record Env : Type := {
  channels : handle → Z → completion (gmap string value);
  signedData : handle → Z → completion (list byte);
  getChannelState : handle → ChannelStateRequest → completion ChannelStateReply
}.

(* ===================================================================== *)
(** ** Methods: a state and exception monad *)
(* ===================================================================== *)

(** A method body runs on the store and either resolves with a value or
    rejects; in both cases the store is as the body left it. *)
Definition M (A : Type) : Type := store → completion A * store.

#[global] Instance M_ret : MRet M := λ A a s, (Resolved a, s).
#[global] Instance M_bind : MBind M := λ A B f m s,
  match m s with
  | (Resolved a, s') => f a s'
  | (Rejected e, s') => (Rejected e, s')
  end.

Definition await {A : Type} (c : completion A) : M A := λ s, (c, s).
Definition get_this : M PaymentChannel := λ s, (Resolved (this s), s).

(** An object literal: a new object at an unused address. *)
Definition new_object (o : gmap string value) : M loc := λ s,
  let l := fresh (dom (heap s)) in
  (Resolved l, {| this := this s; heap := <[l := o]> (heap s) |}).

(** [this._state = l] *)
Definition set_state (l : loc) : M unit := λ s,
  (Resolved tt, {| this := with_state (this s) l; heap := heap s |}).

(** [constructor(channelId, web3, account, service, mpeContract)] on a
    heap: the new channel and the heap holding its first state record. *)
Definition constructor (channelId : Z) (web3 account : handle)
    (service : ServiceClient) (mpeContract : handle)
    (h : gmap loc (gmap string value)) : store :=
  let o : gmap string value :=
    {[ "nonce" := VBigNumber (BigNumber_of_int32 0);
       "lastSignedAmount" := VBigNumber (BigNumber_of_int32 0) ]} in
  let l := fresh (dom h) in
  {| this := {| _channelId := channelId;
                _web3 := web3;
                _account := account;
                _mpeContract := mpeContract;
                _paymentChannelStateServiceClient :=
                  paymentChannelStateServiceClient service;
                _state := l |};
     heap := <[l := o]> h |}.

(** [_currentChannelState()], lines 91 to 98: the signed request.  The
    signature is taken first; the channel id is then written into a fresh
    four-byte buffer. *)
Definition channelStateRequest (E : Env) : M ChannelStateRequest :=
  self ← get_this;
  signatureBytes ← await (signedData E (_account self) (channelId self));
  channelIdBytes ← await (match writeUInt32BE (channelId self) with
                          | Some bytes => Resolved bytes
                          | None => Rejected ERR_OUT_OF_RANGE
                          end);
  mret {| getChannelId := channelIdBytes; getSignature := signatureBytes |}.

(** What the callback of [getChannelState] resolves the promise with. *)
Definition channelState_of_response (response : ChannelStateReply)
  : gmap string value :=
  let nonce := _uint8ArrayToBN (getCurrentNonce response) in
  let currentSignedAmount :=
    _uint8ArrayToBN (getCurrentSignedAmount response) in
  {[ "lastSignedAmount" := VBigNumber currentSignedAmount;
     "nonce" := VBigNumber nonce ]}.

(** [_currentChannelState()] *)
Definition _currentChannelState (E : Env) : M (gmap string value) :=
  self ← get_this;
  request ← channelStateRequest E;
  response ← await (getChannelState E
                      (_paymentChannelStateServiceClient self) request);
  mret (channelState_of_response response).

(** The object literal [syncState] builds. *)
Definition merged_state (nonce currentNonce expiration totalAmount
    lastSignedAmount availableAmount : value) : gmap string value :=
  {[ "nonce" := nonce;
     "currentNonce" := currentNonce;
     "expiration" := expiration;
     "totalAmount" := totalAmount;
     "lastSignedAmount" := lastSignedAmount;
     "availableAmount" := availableAmount ]}.

(** [syncState()] *)
Definition syncState (E : Env) : M ref :=
  self ← get_this;
  latestChannelInfoOnBlockchain ←
    await (channels E (_mpeContract self) (channelId self));
  currentState ← _currentChannelState E;
  let lastSignedAmount := prop currentState "lastSignedAmount" in
  let currentNonce := prop currentState "nonce" in
  let nonce := prop latestChannelInfoOnBlockchain "nonce" in
  let expiration := prop latestChannelInfoOnBlockchain "expiration" in
  let totalAmount := prop latestChannelInfoOnBlockchain "value" in
  let availableAmount := js_minus totalAmount lastSignedAmount in
  l ← new_object (merged_state nonce currentNonce expiration totalAmount
                    lastSignedAmount availableAmount);
  _ ← set_state l;
  mret RThis.

(** Reading [channel.state.k] on a store. *)
Definition read_state (s : store) (k : string) : value :=
  match state_of s with
  | Some o => prop o k
  | None => VUndefined
  end.

(** The record a successful [syncState] builds from what the contract
    ([info]) and the service ([response]) answered. *)
Definition merged_record (info : gmap string value)
    (response : ChannelStateReply) : gmap string value :=
  let currentState := channelState_of_response response in
  merged_state (prop info "nonce") (prop currentState "nonce")
    (prop info "expiration") (prop info "value")
    (prop currentState "lastSignedAmount")
    (js_minus (prop info "value") (prop currentState "lastSignedAmount")).

(** The store a successful [syncState] leaves: the record at an unused
    address, and [_state] pointing to it. *)
Definition committed (s : store) (o : gmap string value) : store :=
  let l := fresh (dom (heap s)) in
  {| this := with_state (this s) l; heap := <[l := o]> (heap s) |}.

(** A run of successive [syncState] calls, each against the outcomes of
    its own moment; the results are dropped, the store is threaded. *)
Fixpoint syncs (Es : list Env) (s : store) : store :=
  match Es with
  | [] => s
  | E :: rest => syncs rest (snd (syncState E s))
  end.

(** The state record of a store has exactly the given properties. *)
Definition state_has_keys (s : store) (keys : gset string) : Prop :=
  ∃ o, state_of s = Some o ∧ dom o = keys.

(** The six properties of a merged record. *)
Definition merged_keys : list string :=
  [ "nonce"; "currentNonce"; "expiration"; "totalAmount";
    "lastSignedAmount"; "availableAmount" ].

(* ===================================================================== *)
(** ** Concrete scenarios *)
(* ===================================================================== *)

(** Collaborators that all answer: the contract with the given record, the
    account with a one-byte signature, the service with the given byte
    arrays. *)
Definition answering (nonce expiration total : N)
    (currentNonce currentSignedAmount : list byte) : Env :=
  {| channels := λ _ _,
       Resolved {[ "nonce" := VUint nonce;
                   "expiration" := VUint expiration;
                   "value" := VUint total ]};
     signedData := λ _ _, Resolved [x01];
     getChannelState := λ _ _,
       Resolved {| getCurrentNonce := currentNonce;
                   getCurrentSignedAmount := currentSignedAmount |} |}.

(** The contract answers, the service rejects. *)
Definition service_down : Env :=
  {| channels := λ _ _,
       Resolved {[ "nonce" := VUint 3;
                   "expiration" := VUint 900000;
                   "value" := VUint 1000 ]};
     signedData := λ _ _, Resolved [x01];
     getChannelState := λ _ _, Rejected (Failure "unavailable") |}.

(** The contract read rejects. *)
Definition chain_down : Env :=
  {| channels := λ _ _, Rejected (Failure "no provider");
     signedData := λ _ _, Resolved [x01];
     getChannelState := λ _ _,
       Resolved {| getCurrentNonce := [x03];
                   getCurrentSignedAmount := [x00] |} |}.

(** A channel with id 7, just constructed on an empty heap. *)
Definition fresh_channel : store :=
  constructor 7 0%nat 1%nat
    {| paymentChannelStateServiceClient := 2%nat |} 3%nat ∅.

(** 2^53 + 1 deposited, nothing signed. *)
Definition env_odd_total : Env :=
  answering 3 900000 9007199254740993 [x03] [x00].

(** 2^53 deposited, 2^53 + 1 signed (seven bytes, [0x20000000000001]). *)
Definition env_overdrawn : Env :=
  answering 3 900000 9007199254740992 [x03]
    [x20; x00; x00; x00; x00; x00; x01].

(** A channel nobody has paid on yet: the service sends both integers as
    zero-length arrays. *)
Definition env_empty_reply : Env :=
  answering 0 900000 1000 [] [].

(** On-chain nonce 5, service still at nonce 4. *)
Definition env_skew : Env :=
  answering 5 900000 1000 [x04] [x64].

(** The scenario of the specification: 10^18 deposited, 2.5 * 10^17
    signed ([0x03782dace9d90000]), both nonces at 3. *)
Definition env_scenario : Env :=
  answering 3 900000 1000000000000000000 [x03]
    [x03; x78; x2d; xac; xe9; xd9; x00; x00].

(* ===================================================================== *)
(** ** Transactions on the escrow contract *)
(* ===================================================================== *)

(** The three state-changing calls of the contract binding, each with the
    contract it is invoked on, then its arguments as the class passes
    them: the account, the channel id, and the expiration and amount.
    [R] is what a call resolves to (a transaction receipt). *)
Record Escrow (R : Type) : Type := {
  channelAddFunds : handle → handle → Z → value → completion R;
  channelExtend : handle → handle → Z → value → completion R;
  channelExtendAndAddFunds :
    handle → handle → Z → value → value → completion R
}.
Arguments channelAddFunds {R} _ _ _ _ _.
Arguments channelExtend {R} _ _ _ _ _.
Arguments channelExtendAndAddFunds {R} _ _ _ _ _ _.

(** [addFunds(amount)] *)
Definition addFunds {R : Type} (X : Escrow R) (amount : value) : M R :=
  self ← get_this;
  await (channelAddFunds X (_mpeContract self) (_account self)
           (channelId self) amount).

(** [extendExpiration(expiration)] *)
Definition extendExpiration {R : Type} (X : Escrow R) (expiration : value)
  : M R :=
  self ← get_this;
  await (channelExtend X (_mpeContract self) (_account self)
           (channelId self) expiration).

(** [extendAndAddFunds(expiration, amount)] *)
Definition extendAndAddFunds {R : Type} (X : Escrow R)
    (expiration amount : value) : M R :=
  self ← get_this;
  await (channelExtendAndAddFunds X (_mpeContract self) (_account self)
           (channelId self) expiration amount).

(** What one call of [syncState] comes to, read along its four awaited or
    throwing steps in the order the code takes them. *)
Definition sync_outcome (E : Env) (s : store) : completion ref * store :=
  match channels E (_mpeContract (this s)) (channelId (this s)) with
  | Rejected e => (Rejected e, s)
  | Resolved info =>
      match signedData E (_account (this s)) (channelId (this s)) with
      | Rejected e => (Rejected e, s)
      | Resolved sig =>
          match writeUInt32BE (channelId (this s)) with
          | None => (Rejected ERR_OUT_OF_RANGE, s)
          | Some bytes =>
              match getChannelState E
                      (_paymentChannelStateServiceClient (this s))
                      {| getChannelId := bytes; getSignature := sig |} with
              | Rejected e => (Rejected e, s)
              | Resolved response =>
                  (Resolved RThis, committed s (merged_record info response))
              end
          end
      end
  end.

(** A channel whose id, 2^32, does not fit the four bytes of the request. *)
Definition channel_id_too_large : store :=
  constructor 4294967296 0%nat 1%nat
    {| paymentChannelStateServiceClient := 2%nat |} 3%nat ∅.

(** The contract answers with a record that has no [value]. *)
Definition env_no_value : Env :=
  {| channels := λ _ _,
       Resolved {[ "nonce" := VUint 3; "expiration" := VUint 900000 ]};
     signedData := λ _ _, Resolved [x01];
     getChannelState := λ _ _,
       Resolved {| getCurrentNonce := [x03];
                   getCurrentSignedAmount := [x64] |} |}.

(** A contract binding that accepts every transaction. *)
Definition escrow_accepting : Escrow string :=
  {| channelAddFunds := λ _ _ _ _, Resolved "0xadd";
     channelExtend := λ _ _ _ _, Resolved "0xext";
     channelExtendAndAddFunds := λ _ _ _ _ _, Resolved "0xboth" |}.

(** The contract answers; the service turns down the one request that
    carries channel id 7 and would answer any other. *)
Definition service_refuses_channel_7 : Env :=
  {| channels := λ _ _,
       Resolved {[ "nonce" := VUint 3;
                   "expiration" := VUint 900000;
                   "value" := VUint 1000 ]};
     signedData := λ _ _, Resolved [x01];
     getChannelState := λ _ request,
       if be_value 0 (getChannelId request) =? 7
       then Rejected (Failure "unauthenticated")
       else Resolved {| getCurrentNonce := [x03];
                        getCurrentSignedAmount := [x00] |} |}.

(** On-chain nonce 1; the service is at nonce zero and sends it as a
    zero-length array. *)
Definition env_nonce_unset : Env :=
  answering 1 900000 1000 [] [x64].

(** What a user of a channel may call, with the collaborators' outcomes of
    that moment. *)
Inductive call (R : Type) : Type :=
| CallSyncState (E : Env)
| CallAddFunds (X : Escrow R) (amount : value)
| CallExtendExpiration (X : Escrow R) (expiration : value)
| CallExtendAndAddFunds (X : Escrow R) (expiration amount : value).
Arguments CallSyncState {R} E.
Arguments CallAddFunds {R} X amount.
Arguments CallExtendExpiration {R} X expiration.
Arguments CallExtendAndAddFunds {R} X expiration amount.

(** The store one call leaves. *)
Definition after_call {R : Type} (c : call R) (s : store) : store :=
  match c with
  | CallSyncState E => snd (syncState E s)
  | CallAddFunds X amount => snd (addFunds X amount s)
  | CallExtendExpiration X expiration => snd (extendExpiration X expiration s)
  | CallExtendAndAddFunds X expiration amount =>
      snd (extendAndAddFunds X expiration amount s)
  end.

(** A sequence of calls, one after the other. *)
Fixpoint after_calls {R : Type} (cs : list (call R)) (s : store) : store :=
  match cs with
  | [] => s
  | c :: rest => after_calls rest (after_call c s)
  end.

(** The [syncState] calls of a sequence, in order. *)
Fixpoint syncState_calls {R : Type} (cs : list (call R)) : list Env :=
  match cs with
  | [] => []
  | CallSyncState E :: rest => E :: syncState_calls rest
  | _ :: rest => syncState_calls rest
  end.

(* ===================================================================== *)
(** ** Decoding byte arrays *)
(* ===================================================================== *)

Section Decoding.

Lemma byte_to_Z_range (b : byte) : 0 <= byte_to_Z b < 256.
Proof.
  unfold byte_to_Z. pose proof (Byte.to_N_bounded b). lia.
Qed.

Lemma alphabet16_index_hex_digit (d : Z) :
  0 <= d < 16 → alphabet16_index (hex_digit d) = Some d.
Proof.
  intros Hd.
  assert (Hcases : d = 0 ∨ d = 1 ∨ d = 2 ∨ d = 3 ∨ d = 4 ∨ d = 5 ∨ d = 6
                   ∨ d = 7 ∨ d = 8 ∨ d = 9 ∨ d = 10 ∨ d = 11 ∨ d = 12
                   ∨ d = 13 ∨ d = 14 ∨ d = 15) by lia.
  repeat (destruct Hcases as [-> | Hcases]; [reflexivity |]).
  subst d. reflexivity.
Qed.

(** The two digits printed for a byte are its high and low nibble. *)
Lemma nibbles (b : byte) :
  0 <= Z.shiftr (byte_to_Z b) 4 < 16
  ∧ 0 <= Z.land (byte_to_Z b) 15 < 16
  ∧ 16 * Z.shiftr (byte_to_Z b) 4 + Z.land (byte_to_Z b) 15 = byte_to_Z b.
Proof.
  pose proof (byte_to_Z_range b) as Hb.
  rewrite Z.shiftr_div_pow2 by lia.
  change 15 with (Z.ones 4). rewrite Z.land_ones by lia.
  change (2 ^ 4) with 16.
  pose proof (Z.div_mod (byte_to_Z b) 16 ltac:(lia)).
  pose proof (Z.mod_pos_bound (byte_to_Z b) 16 ltac:(lia)).
  assert (0 <= byte_to_Z b / 16 < 16).
  { split; [apply Z.div_pos; lia | apply Z.div_lt_upper_bound; lia]. }
  lia.
Qed.

(** Reading back in base 16 what [toString('hex')] printed gives the
    big-endian value of the bytes. *)
Lemma parse_base16_hex (bs : list byte) (acc : Z) :
  parse_base16 acc (Buffer_toString_hex bs) = Some (be_value acc bs).
Proof.
  revert acc. induction bs as [| b rest IH]; intros acc; [reflexivity |].
  destruct (nibbles b) as (Hhi & Hlo & Hsum).
  cbn [Buffer_toString_hex parse_base16 be_value].
  rewrite (alphabet16_index_hex_digit _ Hhi).
  rewrite (alphabet16_index_hex_digit _ Hlo).
  rewrite IH. f_equal. f_equal. lia.
Qed.

(** The strings handed to [new BigNumber] are all of the modelled shape:
    the prefix [0x], then characters of the base-16 alphabet only. *)
Lemma hex_literal_shape (bs : list byte) :
  ∃ digits, "0x" ++ Buffer_toString_hex (Buffer_from bs)
            = String "0" (String "x" digits)
            ∧ is_Some (parse_base16 0 digits).
Proof.
  exists (Buffer_toString_hex bs). split; [reflexivity |].
  rewrite parse_base16_hex. eauto.
Qed.

(** A byte array with at least one byte decodes to its exact big-endian
    value, whatever its length. *)
Lemma uint8ArrayToBN_cons (b : byte) (rest : list byte) :
  _uint8ArrayToBN (b :: rest) = BN_int (be_value 0 (b :: rest)).
Proof.
  unfold _uint8ArrayToBN, Buffer_from.
  change ("0x" ++ Buffer_toString_hex (b :: rest))
    with (String "0" (String "x" (Buffer_toString_hex (b :: rest)))).
  unfold BigNumber_new.
  rewrite parse_base16_hex. reflexivity.
Qed.

Lemma be_value_zeros (n : nat) : be_value 0 (replicate n x00) = 0.
Proof. induction n as [| n IH]; [reflexivity | exact IH]. Qed.

(** An array of zero bytes, not empty, decodes to zero. *)
Lemma uint8ArrayToBN_zeros (n : nat) :
  _uint8ArrayToBN (replicate (S n) x00) = BN_int 0.
Proof.
  change (replicate (S n) x00) with (x00 :: replicate n x00).
  rewrite uint8ArrayToBN_cons.
  change (be_value 0 (x00 :: replicate n x00))
    with (be_value 0 (replicate n x00)).
  now rewrite be_value_zeros.
Qed.

Lemma byte_to_Z_ToUint8 (z : Z) : byte_to_Z (ToUint8 z) = z mod 256.
Proof.
  unfold ToUint8, byte_to_Z.
  pose proof (Z.mod_pos_bound z 256 ltac:(lia)) as Hm.
  destruct (Byte.of_N (Z.to_N (z mod 256))) as [b |] eqn:Hof.
  - apply Byte.to_of_N in Hof. rewrite Hof. lia.
  - apply Byte.of_N_None_iff in Hof. lia.
Qed.

(** The four bytes written for an unsigned 32-bit integer denote it. *)
Lemma be_value_writeUInt32BE (v : Z) :
  0 <= v <= 4294967295 →
  be_value 0 [ ToUint8 (Z.shiftr v 24); ToUint8 (Z.shiftr v 16);
               ToUint8 (Z.shiftr v 8); ToUint8 v ] = v.
Proof.
  intros Hv. cbn [be_value].
  rewrite !byte_to_Z_ToUint8, !Z.shiftr_div_pow2 by lia.
  change (2 ^ 24) with 16777216. change (2 ^ 16) with 65536.
  change (2 ^ 8) with 256.
  Z.div_mod_to_equations. lia.
Qed.

End Decoding.

(* ===================================================================== *)
(** ** Running the methods *)
(* ===================================================================== *)

Ltac unfold_M :=
  unfold mbind, M_bind, mret, M_ret, await, get_this, new_object, set_state.

Section Running.

Variable E : Env.

(** Building the request touches neither the channel nor the heap. *)
Lemma channelStateRequest_run (s : store) :
  channelStateRequest E s =
    (match signedData E (_account (this s)) (channelId (this s)) with
     | Resolved sig =>
         match writeUInt32BE (channelId (this s)) with
         | Some bytes =>
             Resolved {| getChannelId := bytes; getSignature := sig |}
         | None => Rejected ERR_OUT_OF_RANGE
         end
     | Rejected e => Rejected e
     end, s).
Proof.
  unfold channelStateRequest. unfold_M.
  destruct (signedData E _ _); [| reflexivity].
  destruct (writeUInt32BE _); reflexivity.
Qed.

Lemma currentChannelState_run (s : store) :
  _currentChannelState E s =
    (match fst (channelStateRequest E s) with
     | Resolved request =>
         match getChannelState E
                 (_paymentChannelStateServiceClient (this s)) request with
         | Resolved response => Resolved (channelState_of_response response)
         | Rejected e => Rejected e
         end
     | Rejected e => Rejected e
     end, s).
Proof.
  unfold _currentChannelState. unfold_M.
  rewrite channelStateRequest_run. cbn [fst].
  destruct (signedData E _ _); [| reflexivity].
  destruct (writeUInt32BE _); [| reflexivity].
  destruct (getChannelState E _ _); reflexivity.
Qed.

(** When the contract, the account, the buffer write and the service all
    succeed, [syncState] resolves to the channel and commits the merged
    record. *)
Lemma syncState_resolved (s : store) info sig bytes response :
  channels E (_mpeContract (this s)) (channelId (this s)) = Resolved info →
  signedData E (_account (this s)) (channelId (this s)) = Resolved sig →
  writeUInt32BE (channelId (this s)) = Some bytes →
  getChannelState E (_paymentChannelStateServiceClient (this s))
    {| getChannelId := bytes; getSignature := sig |} = Resolved response →
  syncState E s = (Resolved RThis, committed s (merged_record info response)).
Proof.
  intros Hchain Hsig Hbytes Hsvc.
  unfold syncState. unfold_M. rewrite Hchain.
  rewrite currentChannelState_run, channelStateRequest_run. cbn [fst].
  rewrite Hsig, Hbytes, Hsvc. reflexivity.
Qed.

(** Conversely a resolved [syncState] had all four succeed. *)
Lemma syncState_inv (s s' : store) (r : ref) :
  syncState E s = (Resolved r, s') →
  ∃ info sig bytes response,
    channels E (_mpeContract (this s)) (channelId (this s)) = Resolved info
    ∧ signedData E (_account (this s)) (channelId (this s)) = Resolved sig
    ∧ writeUInt32BE (channelId (this s)) = Some bytes
    ∧ getChannelState E (_paymentChannelStateServiceClient (this s))
        {| getChannelId := bytes; getSignature := sig |} = Resolved response
    ∧ r = RThis
    ∧ s' = committed s (merged_record info response).
Proof.
  unfold syncState. unfold_M.
  rewrite currentChannelState_run, channelStateRequest_run. cbn [fst].
  destruct (channels E _ _) as [info |]; [| discriminate].
  destruct (signedData E _ _) as [sig |]; [| discriminate].
  destruct (writeUInt32BE _) as [bytes |]; [| discriminate].
  destruct (getChannelState E _ _) as [response |] eqn:Hsvc; [| discriminate].
  intros H. injection H as <- <-.
  exists info, sig, bytes, response. repeat split; trivial.
Qed.

(** A rejected [syncState] leaves the store as it found it. *)
Lemma syncState_rejected (s s' : store) (e : error) :
  syncState E s = (Rejected e, s') → s' = s.
Proof.
  unfold syncState. unfold_M.
  rewrite currentChannelState_run, channelStateRequest_run. cbn [fst].
  destruct (channels E _ _); [| intros H; now injection H as _ <-].
  destruct (signedData E _ _); [| intros H; now injection H as _ <-].
  destruct (writeUInt32BE _); [| intros H; now injection H as _ <-].
  destruct (getChannelState E _ _); [discriminate |].
  intros H; now injection H as _ <-.
Qed.

End Running.

(** The record at the address a committed store points to. *)
Lemma state_of_committed (s : store) (o : gmap string value) :
  state_of (committed s o) = Some o.
Proof.
  unfold state_of, committed, state, with_state. cbn.
  apply lookup_insert_eq.
Qed.

Lemma state_of_constructor id web3 account service mpe h :
  state_of (constructor id web3 account service mpe h) =
    Some {[ "nonce" := VBigNumber (BN_int 0);
            "lastSignedAmount" := VBigNumber (BN_int 0) ]}.
Proof.
  unfold state_of, constructor, state. cbn.
  apply lookup_insert_eq.
Qed.

(* ===================================================================== *)
(** ** Reading the merged record *)
(* ===================================================================== *)

Lemma read_state_committed (s : store) (o : gmap string value) (k : string) :
  read_state (committed s o) k = prop o k.
Proof. unfold read_state. now rewrite state_of_committed. Qed.

Section MergedFields.

Variables (info : gmap string value) (response : ChannelStateReply).

Lemma merged_nonce :
  prop (merged_record info response) "nonce" = prop info "nonce".
Proof. reflexivity. Qed.

Lemma merged_currentNonce :
  prop (merged_record info response) "currentNonce"
  = VBigNumber (_uint8ArrayToBN (getCurrentNonce response)).
Proof. reflexivity. Qed.

Lemma merged_expiration :
  prop (merged_record info response) "expiration" = prop info "expiration".
Proof. reflexivity. Qed.

Lemma merged_totalAmount :
  prop (merged_record info response) "totalAmount" = prop info "value".
Proof. reflexivity. Qed.

Lemma merged_lastSignedAmount :
  prop (merged_record info response) "lastSignedAmount"
  = VBigNumber (_uint8ArrayToBN (getCurrentSignedAmount response)).
Proof. reflexivity. Qed.

(** The available amount is the difference of two Numbers: both operands
    go through [ToNumber] before they are subtracted. *)
Lemma merged_availableAmount :
  prop (merged_record info response) "availableAmount"
  = VNumber (Number.sub
               (ToNumber (prop info "value"))
               (ToNumber (VBigNumber
                  (_uint8ArrayToBN (getCurrentSignedAmount response))))).
Proof. reflexivity. Qed.

Lemma merged_dom :
  dom (merged_record info response) =
    ({[ "nonce"; "currentNonce"; "expiration"; "totalAmount";
        "lastSignedAmount"; "availableAmount" ]} : gset string).
Proof.
  unfold merged_record, merged_state.
  rewrite !dom_insert_L, dom_singleton_L. set_solver.
Qed.

End MergedFields.

(* ===================================================================== *)
(** ** Subtraction of Numbers below 2^53 *)
(* ===================================================================== *)

Section Exactness.

(** Number of binary digits of a positive. *)
Lemma digits2_pos_log2 (p : positive) :
  Z.pos (digits2_pos p) = Z.log2 (Z.pos p) + 1.
Proof.
  assert (Hsize : ∀ q, digits2_pos q = Pos.size q).
  { induction q as [q IH | q IH |]; cbn; now rewrite ?IH. }
  rewrite Hsize. destruct p as [q | q |]; cbn; lia.
Qed.

Lemma digits2_pos_shift (v : positive) (k : Z) (m : positive) :
  0 <= k → Z.pos m = Z.pos v * 2 ^ k →
  Z.pos (digits2_pos m) = Z.pos (digits2_pos v) + k.
Proof.
  intros Hk Hm. rewrite !digits2_pos_log2, Hm.
  rewrite Z.log2_mul_pow2 by lia. lia.
Qed.

Lemma digits2_pos_le_53 (p : positive) :
  Z.pos p < 2 ^ 53 → Z.pos (digits2_pos p) <= 53.
Proof.
  intros Hp. rewrite digits2_pos_log2.
  apply Z.log2_lt_pow2 in Hp; lia.
Qed.

Lemma iter_xO_value (m d : positive) :
  Z.pos (Pos.iter xO m d) = Z.pos m * 2 ^ Z.pos d.
Proof.
  induction d as [| d IH] using Pos.peano_ind.
  - cbn. lia.
  - rewrite Pos.iter_succ, Pos2Z.inj_xO, IH, Pos2Z.inj_succ.
    rewrite Z.pow_succ_r by lia. lia.
Qed.

Lemma iter_pos_peano {A : Type} (f : A → A) (n : positive) (x : A) :
  SpecFloat.iter_pos f n x = Pos.iter f x n.
Proof.
  revert x. induction n as [n IH | n IH |]; intros x; cbn.
  - rewrite !IH, !Pos.iter_swap. reflexivity.
  - now rewrite !IH.
  - reflexivity.
Qed.

(** Shifting out zero bits loses nothing. *)
Lemma iter_shr_1_exact (p m : positive) :
  SpecFloat.iter_pos shr_1 p
    {| shr_m := Z.pos (Pos.iter xO m p); shr_r := false; shr_s := false |}
  = {| shr_m := Z.pos m; shr_r := false; shr_s := false |}.
Proof.
  rewrite iter_pos_peano.
  induction p as [| p IH] using Pos.peano_ind.
  - reflexivity.
  - rewrite Pos.iter_succ, <- Pos.iter_swap. rewrite Pos.iter_succ. cbn [shr_1 orb].
    exact IH.
Qed.


Lemma fexp_binary64 (d : Z) :
  -1021 <= d → fexp Number.prec Number.emax d = d - 53.
Proof. unfold fexp, emin, Number.prec, Number.emax. lia. Qed.

(** A mantissa of 53 digits with an exponent in range is left as it is. *)
Lemma binary_round_aux_canonical (sx : bool) (m : positive) (e : Z) :
  Z.pos (digits2_pos m) = 53 → -1074 <= e <= 971 →
  binary_round_aux Number.prec Number.emax sx (Z.pos m) e loc_Exact
  = S754_finite sx m e.
Proof.
  intros Hd He.
  assert (Hshr : shr_fexp Number.prec Number.emax (Z.pos m) e loc_Exact
                 = ({| shr_m := Z.pos m; shr_r := false; shr_s := false |}, e)).
  { unfold shr_fexp. cbn [Zdigits2 shr_record_of_loc]. rewrite Hd.
    rewrite fexp_binary64 by lia.
    replace (53 + e - 53 - e) with 0 by lia. reflexivity. }
  unfold binary_round_aux. rewrite Hshr.
  cbn [shr_m loc_of_shr_record round_nearest_even]. rewrite Hshr.
  cbn [shr_m]. unfold Number.emax, Number.prec.
  replace (e <=? 1024 - 53) with true by (symmetry; apply Z.leb_le; lia).
  reflexivity.
Qed.

(** Rounding a mantissa [v * 2^k] at exponent [-k], for [v] of at most 53
    digits: the value [v] is kept, normalised to 53 digits. *)
Lemma binary_round_exact (sx : bool) (m v : positive) (k : Z) :
  Z.pos (digits2_pos v) <= 53 → 0 <= k <= 1021 →
  Z.pos m = Z.pos v * 2 ^ k →
  ∃ mz, binary_round Number.prec Number.emax sx m (- k)
        = S754_finite sx mz (Z.pos (digits2_pos v) - 53)
        ∧ Z.pos mz = Z.pos v * 2 ^ (53 - Z.pos (digits2_pos v)).
Proof.
  intros Hv Hk Hm.
  pose proof (digits2_pos_shift v k m ltac:(lia) Hm) as Hdm.
  set (dv := Z.pos (digits2_pos v)) in *.
  assert (Hdv : 1 <= dv) by (subst dv; lia).
  unfold binary_round. rewrite Hdm.
  replace (dv + k + - k) with dv by lia.
  rewrite fexp_binary64 by lia.
  unfold shl_align.
  destruct (dv - 53 - - k) as [| p | p] eqn:Hcmp.
  - (* the mantissa has 53 digits already *)
    exists m. replace (dv - 53) with (- k) by lia.
    split; [apply binary_round_aux_canonical; lia |].
    rewrite Hm. f_equal. f_equal. lia.
  - (* more than 53 digits: the low ones are zero and are shifted out *)
    set (mz := Z.to_pos (Z.pos v * 2 ^ (53 - dv))).
    assert (Hmz : Z.pos mz = Z.pos v * 2 ^ (53 - dv)).
    { subst mz. rewrite Z2Pos.id; [reflexivity |].
      apply Z.mul_pos_pos; [lia | apply Z.pow_pos_nonneg; lia]. }
    assert (Hsplit : m = Pos.iter xO mz p).
    { apply Pos2Z.inj. rewrite iter_xO_value, Hm, Hmz, <- Z.mul_assoc.
      rewrite <- Z.pow_add_r by lia. f_equal. f_equal. lia. }
    assert (Hdz : Z.pos (digits2_pos mz) = 53).
    { rewrite (digits2_pos_shift v (53 - dv) mz) by (trivial; lia).
      fold dv. lia. }
    exists mz. split; [| exact Hmz].
    assert (Hshr : shr_fexp Number.prec Number.emax (Z.pos m) (- k) loc_Exact
                   = ({| shr_m := Z.pos mz; shr_r := false; shr_s := false |},
                      dv - 53)).
    { unfold shr_fexp. cbn [Zdigits2 shr_record_of_loc]. rewrite Hdm.
      replace (dv + k + - k) with dv by lia.
      rewrite fexp_binary64 by lia. rewrite Hcmp. unfold shr.
      rewrite Hsplit, iter_shr_1_exact. f_equal. lia. }
    assert (Hshr' : shr_fexp Number.prec Number.emax (Z.pos mz) (dv - 53)
                      loc_Exact
                    = ({| shr_m := Z.pos mz; shr_r := false; shr_s := false |},
                       dv - 53)).
    { unfold shr_fexp. cbn [Zdigits2 shr_record_of_loc]. rewrite Hdz.
      rewrite fexp_binary64 by lia.
      replace (53 + (dv - 53) - 53 - (dv - 53)) with 0 by lia. reflexivity. }
    unfold binary_round_aux. rewrite Hshr.
    cbn [shr_m loc_of_shr_record round_nearest_even]. rewrite Hshr'.
    cbn [shr_m]. unfold Number.emax, Number.prec.
    replace (dv - 53 <=? 1024 - 53) with true
      by (symmetry; apply Z.leb_le; lia).
    reflexivity.
  - (* fewer than 53 digits: the mantissa is shifted left *)
    exists (Pos.iter xO m p).
    assert (Hvalue : Z.pos (Pos.iter xO m p) = Z.pos v * 2 ^ (53 - dv)).
    { rewrite iter_xO_value, Hm, <- Z.mul_assoc, <- Z.pow_add_r by lia.
      f_equal. f_equal. lia. }
    split; [| exact Hvalue].
    apply binary_round_aux_canonical; [| lia].
    rewrite (digits2_pos_shift v (53 - dv) _) by (trivial; lia).
    fold dv. lia.
Qed.


Lemma of_Z_pos (p : positive) :
  Z.pos p < 2 ^ 53 → holds_exactly (Number.of_Z (Z.pos p)) false p.
Proof.
  intros Hp. apply digits2_pos_le_53 in Hp.
  apply (binary_round_exact false p p 0); lia.
Qed.

Lemma to_Z_holds_exactly (x : spec_float) (s : bool) (v : positive) :
  Z.pos (digits2_pos v) <= 53 → holds_exactly x s v →
  Number.to_Z x = Some (cond_Zopp s (Z.pos v)).
Proof.
  intros Hd (m & -> & Hm). unfold Number.to_Z.
  set (j := 53 - Z.pos (digits2_pos v)) in *.
  replace (Z.pos (digits2_pos v) - 53) with (- j) by lia.
  assert (Hpow : 0 < 2 ^ j) by (apply Z.pow_pos_nonneg; lia).
  destruct (0 <=? - j) eqn:Hsign.
  - apply Z.leb_le in Hsign. assert (j = 0) as -> by lia.
    rewrite Hm. cbn. do 2 f_equal. lia.
  - rewrite Z.opp_involutive, Hm.
    rewrite Z.mod_mul, Z.div_mul by lia. reflexivity.
Qed.

(** The mantissa [shl_align] produces denotes the same value at the lower
    exponent. *)
Lemma shl_align_value (m : positive) (e e' : Z) :
  e' <= e → Z.pos (fst (shl_align m e e')) = Z.pos m * 2 ^ (e - e').
Proof.
  intros He. unfold shl_align.
  destruct (e' - e) as [| p | p] eqn:Hcmp; cbn [fst]; try lia.
  - replace (e - e') with 0 by lia. lia.
  - rewrite iter_xO_value. do 2 f_equal. lia.
Qed.

(** Subtracting two integers below 2^53 held as Numbers gives their exact
    difference. *)
Lemma sub_holds_exactly (x y : spec_float) (a b : positive) :
  Z.pos a < 2 ^ 53 → Z.pos b < 2 ^ 53 →
  holds_exactly x false a → holds_exactly y false b →
  Number.to_Z (Number.sub x y) = Some (Z.pos a - Z.pos b).
Proof.
  intros Ha Hb (ma & -> & Hma) (mb & -> & Hmb).
  pose proof (digits2_pos_le_53 a Ha) as Hda.
  pose proof (digits2_pos_le_53 b Hb) as Hdb.
  set (da := Z.pos (digits2_pos a)) in *.
  set (db := Z.pos (digits2_pos b)) in *.
  assert (1 <= da ∧ 1 <= db) as [Hda1 Hdb1] by (subst da db; lia).
  unfold Number.sub, SFsub. cbn [cond_Zopp].
  set (ez := Z.min (da - 53) (db - 53)).
  assert (Hez : -52 <= ez <= 0) by (subst ez; lia).
  rewrite !shl_align_value by (subst ez; lia).
  assert (Hdiff : Z.pos ma * 2 ^ (da - 53 - ez) - Z.pos mb * 2 ^ (db - 53 - ez)
                  = (Z.pos a - Z.pos b) * 2 ^ (- ez)).
  { rewrite Hma, Hmb, <- !Z.mul_assoc, <- !Z.pow_add_r by lia.
    replace (53 - da + (da - 53 - ez)) with (- ez) by lia.
    replace (53 - db + (db - 53 - ez)) with (- ez) by lia. lia. }
  rewrite Hdiff. clear Hdiff.
  assert (Hpow : 0 < 2 ^ (- ez)) by (apply Z.pow_pos_nonneg; lia).
  destruct (Z.pos a - Z.pos b) as [| v | v] eqn:Hv.
  - reflexivity.
  - assert (Hq : ∃ q, Z.pos v * 2 ^ (- ez) = Z.pos q).
    { exists (Z.to_pos (Z.pos v * 2 ^ (- ez))). rewrite Z2Pos.id; lia. }
    destruct Hq as [q Hq]. rewrite Hq. cbn [binary_normalize].
    assert (Hdv : Z.pos (digits2_pos v) <= 53)
      by (apply digits2_pos_le_53; lia).
    replace ez with (- - ez) at 1 by lia.
    destruct (binary_round_exact false q v (- ez) Hdv ltac:(lia) ltac:(lia))
      as (mz & -> & Hmz).
    apply (to_Z_holds_exactly _ false v Hdv). now exists mz.
  - assert (Hq : ∃ q, Z.neg v * 2 ^ (- ez) = Z.neg q).
    { exists (Z.to_pos (Z.pos v * 2 ^ (- ez))).
      rewrite <- !Pos2Z.opp_pos, Z2Pos.id; lia. }
    destruct Hq as [q Hq]. rewrite Hq. cbn [binary_normalize].
    assert (Hdv : Z.pos (digits2_pos v) <= 53)
      by (apply digits2_pos_le_53; lia).
    replace ez with (- - ez) at 1 by lia.
    destruct (binary_round_exact true q v (- ez) Hdv ltac:(lia) ltac:(lia))
      as (mz & -> & Hmz).
    apply (to_Z_holds_exactly _ true v Hdv). now exists mz.
Qed.

(** Below 2^53 the subtraction of Numbers is the subtraction of integers,
    whatever its sign. *)
Lemma sub_of_Z_exact (t l : Z) :
  0 <= t < 2 ^ 53 → 0 <= l < 2 ^ 53 →
  Number.to_Z (Number.sub (Number.of_Z t) (Number.of_Z l)) = Some (t - l).
Proof.
  intros Ht Hl.
  destruct t as [| a | a]; [| | lia]; (destruct l as [| b | b]; [| | lia]).
  - reflexivity.
  - destruct (of_Z_pos b ltac:(lia)) as (mb & Hb & Hmb).
    rewrite Hb. change (Number.of_Z 0) with (S754_zero false).
    cbn [Number.sub SFsub negb].
    apply (to_Z_holds_exactly _ true b); [apply digits2_pos_le_53; lia |].
    now exists mb.
  - destruct (of_Z_pos a ltac:(lia)) as (ma & Ha & Hma).
    rewrite Ha. change (Number.of_Z 0) with (S754_zero false).
    cbn [Number.sub SFsub]. rewrite Z.sub_0_r.
    apply (to_Z_holds_exactly _ false a); [apply digits2_pos_le_53; lia |].
    now exists ma.
  - apply sub_holds_exactly; try lia; apply of_Z_pos; lia.
Qed.

End Exactness.

(* ===================================================================== *)
(** ** The available amount *)
(* ===================================================================== *)

(** The scenario of the specification: 10^18 deposited and 2.5 * 10^17
    signed give 7.5 * 10^17 available, both nonces 3. *)
Example scenario_merge :
  ∃ s', syncState env_scenario fresh_channel = (Resolved RThis, s')
        ∧ read_state s' "nonce" = VUint 3
        ∧ read_state s' "currentNonce" = VBigNumber (BN_int 3)
        ∧ read_state s' "expiration" = VUint 900000
        ∧ read_state s' "totalAmount" = VUint 1000000000000000000
        ∧ read_state s' "lastSignedAmount"
          = VBigNumber (BN_int 250000000000000000)
        ∧ read_state s' "availableAmount"
          = VNumber (Number.of_Z 750000000000000000).
Proof.
  eexists. split; [eapply syncState_resolved; reflexivity |].
  rewrite !read_state_committed. repeat split; vm_compute; reflexivity.
Qed.

(** What does hold of the available amount: when the deposit and the
    signed amount are both below 2^53, it is their exact difference,
    negative when more is signed than deposited. *)
Lemma syncState_available_amount_exact_below_2_53
    (E : Env) (s : store) info sig bytes response (t : N) (l : Z) :
  channels E (_mpeContract (this s)) (channelId (this s)) = Resolved info →
  signedData E (_account (this s)) (channelId (this s)) = Resolved sig →
  writeUInt32BE (channelId (this s)) = Some bytes →
  getChannelState E (_paymentChannelStateServiceClient (this s))
    {| getChannelId := bytes; getSignature := sig |} = Resolved response →
  prop info "value" = VUint t →
  _uint8ArrayToBN (getCurrentSignedAmount response) = BN_int l →
  Z.of_N t < 2 ^ 53 → 0 <= l < 2 ^ 53 →
  ∃ s' x,
    syncState E s = (Resolved RThis, s')
    ∧ read_state s' "availableAmount" = VNumber x
    ∧ Number.to_Z x = Some (Z.of_N t - l).
Proof.
  intros Hchain Hsig Hbytes Hsvc Ht Hl Htb Hlb.
  eexists. eexists.
  split; [now apply (syncState_resolved E s info sig bytes response) |].
  rewrite read_state_committed, merged_availableAmount, Ht, Hl.
  split; [reflexivity |]. cbn [ToNumber].
  apply sub_of_Z_exact; lia.
Qed.

(** C1 (merge correctness, exact difference).  The claim asks for the exact
    difference [totalAmount - lastSignedAmount] at any magnitude.  The
    code subtracts with the [-] operator, hence on Numbers: with 2^53 + 1
    deposited and 0 signed, [syncState] resolves, keeps both operands
    exact, and reports 2^53 as the available amount, one less than the
    difference. *)
Theorem syncState_available_amount_rounds :
  ∃ s' x,
    syncState env_odd_total fresh_channel = (Resolved RThis, s')
    ∧ read_state s' "totalAmount" = VUint 9007199254740993
    ∧ read_state s' "lastSignedAmount" = VBigNumber (BN_int 0)
    ∧ read_state s' "availableAmount" = VNumber x
    ∧ Number.to_Z x = Some 9007199254740992
    ∧ 9007199254740992 ≠ 9007199254740993 - 0.
Proof.
  eexists. eexists.
  split; [eapply syncState_resolved; reflexivity |].
  rewrite !read_state_committed.
  repeat split; try (vm_compute; reflexivity). lia.
Qed.

(** C5 (no clamping, exact negative difference).  The claim asks for the
    exact negative difference when more is signed than deposited.  With
    2^53 deposited and 2^53 + 1 signed both operands round to the same
    Number and [syncState] reports an available amount of zero, where
    the difference is -1. *)
Theorem syncState_overdrawn_amount_collapses :
  ∃ s',
    syncState env_overdrawn fresh_channel = (Resolved RThis, s')
    ∧ read_state s' "totalAmount" = VUint 9007199254740992
    ∧ read_state s' "lastSignedAmount"
      = VBigNumber (BN_int 9007199254740993)
    ∧ read_state s' "availableAmount" = VNumber (S754_zero false)
    ∧ Number.to_Z (S754_zero false) = Some 0
    ∧ 0 ≠ 9007199254740992 - 9007199254740993.
Proof.
  eexists.
  split; [eapply syncState_resolved; reflexivity |].
  rewrite !read_state_committed.
  repeat split; try (vm_compute; reflexivity). lia.
Qed.

(* ===================================================================== *)
(** ** Decoding the service's answer *)
(* ===================================================================== *)

(** C2 (decoding of byte arrays).  A byte array with at least one byte
    decodes to its exact big-endian value ([uint8ArrayToBN_cons]), zero
    for zero bytes ([uint8ArrayToBN_zeros]).  The zero-length array does
    not: its literal is the bare prefix [0x], which [new BigNumber] reads
    as NaN, where the claim asks for zero.  A service that sends zero as a
    zero-length array makes [syncState] store NaN for the nonce and the
    signed amount, and a NaN available amount. *)
Theorem uint8ArrayToBN_empty_is_NaN :
  _uint8ArrayToBN [] = BN_NaN
  ∧ be_value 0 [] = 0
  ∧ _uint8ArrayToBN [] ≠ BN_int (be_value 0 [])
  ∧ ∃ s',
      syncState env_empty_reply fresh_channel = (Resolved RThis, s')
      ∧ read_state s' "currentNonce" = VBigNumber BN_NaN
      ∧ read_state s' "lastSignedAmount" = VBigNumber BN_NaN
      ∧ read_state s' "availableAmount" = VNumber S754_nan.
Proof.
  split; [reflexivity |]. split; [reflexivity |]. split; [discriminate |].
  eexists.
  split; [eapply syncState_resolved; reflexivity |].
  rewrite !read_state_committed.
  repeat split; vm_compute; reflexivity.
Qed.

(* ===================================================================== *)
(** ** Failure leaves the channel alone *)
(* ===================================================================== *)

(** C3 (atomicity).  When the on-chain read rejects, or the off-chain
    state query ([_currentChannelState]: the signature, the request and
    the call of the service with that request) rejects, [syncState]
    rejects and the store after the call (the channel, its state
    reference and every heap object) is the store before the call. *)
Theorem syncState_failure_keeps_state (E : Env) (s : store) :
  (∃ e, channels E (_mpeContract (this s)) (channelId (this s)) = Rejected e)
  ∨ (∃ e, fst (_currentChannelState E s) = Rejected e) →
  ∃ e, syncState E s = (Rejected e, s).
Proof.
  intros Hfail.
  destruct (syncState E s) as [[r | e] s'] eqn:Hrun.
  - exfalso. apply syncState_inv in Hrun
      as (info & sig & bytes & response & Hchain & Hsig & Hbytes & Hsvc & _).
    destruct Hfail as [[e He] | [e He]]; [congruence |].
    rewrite currentChannelState_run, channelStateRequest_run in He.
    cbn [fst] in He. rewrite Hsig, Hbytes, Hsvc in He. discriminate He.
  - exists e. now rewrite (syncState_rejected _ _ _ _ Hrun).
Qed.

(** The service turns down the request it is sent, after the contract has
    answered: the channel just constructed is left as it was. *)
Lemma syncState_failure_keeps_state_witness :
  ∃ e, syncState service_refuses_channel_7 fresh_channel
       = (Rejected e, fresh_channel).
Proof.
  apply (syncState_failure_keeps_state service_refuses_channel_7
           fresh_channel).
  right. exists (Failure "unauthenticated"). reflexivity.
Defined.

(** The same when the service rejects every request. *)
Example service_down_keeps_state :
  syncState service_down fresh_channel
  = (Rejected (Failure "unavailable"), fresh_channel).
Proof. reflexivity. Qed.

(** The same when the contract read is the one that fails. *)
Example chain_down_keeps_state :
  syncState chain_down fresh_channel
  = (Rejected (Failure "no provider"), fresh_channel).
Proof. reflexivity. Qed.

(* ===================================================================== *)
(** ** What a successful call returns and installs *)
(* ===================================================================== *)

(** C4, as stated (the merged record is the result value), fails: in the
    scenario of the specification the call does not resolve to the record
    the channel then holds. *)
Lemma syncState_does_not_return_the_record :
  ¬ ∃ s', syncState env_scenario fresh_channel
          = (Resolved (RObject (state (this s'))), s').
Proof.
  intros [s' Hrun].
  apply syncState_inv in Hrun as (_ & _ & _ & _ & _ & _ & _ & _ & Hr & _).
  discriminate Hr.
Qed.

(** C4 (amended).  Every successful [syncState] resolves to the channel
    itself and installs the merged record, with its six properties, as
    the channel's state; the record is what the [state] getter of the
    returned channel refers to. *)
Theorem syncState_returns_channel_and_installs_record
    (E : Env) (s s' : store) (r : ref) :
  syncState E s = (Resolved r, s') →
  r = RThis
  ∧ ∃ info sig bytes response,
      channels E (_mpeContract (this s)) (channelId (this s)) = Resolved info
      ∧ getChannelState E (_paymentChannelStateServiceClient (this s))
          {| getChannelId := bytes; getSignature := sig |} = Resolved response
      ∧ state_of s' = Some (merged_record info response)
      ∧ state_has_keys s'
          {[ "nonce"; "currentNonce"; "expiration"; "totalAmount";
             "lastSignedAmount"; "availableAmount" ]}
      ∧ read_state s' "nonce" = prop info "nonce"
      ∧ read_state s' "currentNonce"
        = VBigNumber (_uint8ArrayToBN (getCurrentNonce response))
      ∧ read_state s' "expiration" = prop info "expiration"
      ∧ read_state s' "totalAmount" = prop info "value"
      ∧ read_state s' "lastSignedAmount"
        = VBigNumber (_uint8ArrayToBN (getCurrentSignedAmount response))
      ∧ read_state s' "availableAmount"
        = js_minus (read_state s' "totalAmount")
            (read_state s' "lastSignedAmount").
Proof.
  intros Hrun.
  apply syncState_inv in Hrun
    as (info & sig & bytes & response & Hchain & _ & _ & Hsvc & -> & ->).
  split; [reflexivity |].
  exists info, sig, bytes, response.
  split; [exact Hchain |]. split; [exact Hsvc |].
  split; [apply state_of_committed |].
  split.
  { eexists. split; [apply state_of_committed | apply merged_dom]. }
  rewrite !read_state_committed. repeat split.
Qed.

(** On the scenario of the specification. *)
Lemma syncState_returns_channel_and_installs_record_witness :
  ∃ s', syncState env_scenario fresh_channel = (Resolved RThis, s')
        ∧ state_has_keys s'
            {[ "nonce"; "currentNonce"; "expiration"; "totalAmount";
               "lastSignedAmount"; "availableAmount" ]}.
Proof.
  exists (snd (syncState env_scenario fresh_channel)).
  assert (Hrun : syncState env_scenario fresh_channel
                 = (Resolved RThis, snd (syncState env_scenario fresh_channel)))
    by (vm_compute; reflexivity).
  split; [exact Hrun |].
  destruct (syncState_returns_channel_and_installs_record _ _ _ _ Hrun)
    as (_ & info & sig & bytes & response & _ & _ & _ & Hkeys & _).
  exact Hkeys.
Defined.

(* ===================================================================== *)
(** ** The signed request *)
(* ===================================================================== *)

(** C6 (channel id round trip).  For a channel id in [[0, 2^32 - 1)] the
    request carries the id as four bytes, most significant first, next
    to the signature; these bytes denote the id, and decoding them with
    [_uint8ArrayToBN] gives the id back. *)
Theorem channelId_bytes_round_trip (E : Env) (s : store) (sig : list byte) :
  0 <= channelId (this s) < 2 ^ 32 - 1 →
  signedData E (_account (this s)) (channelId (this s)) = Resolved sig →
  ∃ bytes,
    channelStateRequest E s
    = (Resolved {| getChannelId := bytes; getSignature := sig |}, s)
    ∧ length bytes = 4%nat
    ∧ be_value 0 bytes = channelId (this s)
    ∧ _uint8ArrayToBN bytes = BN_int (channelId (this s)).
Proof.
  intros Hid Hsig.
  assert (Hrange : 0 <= channelId (this s) <= 4294967295) by lia.
  pose proof (be_value_writeUInt32BE _ Hrange) as Hvalue.
  eexists. rewrite channelStateRequest_run, Hsig. unfold writeUInt32BE.
  replace ((0 <=? channelId (this s)) && (channelId (this s) <=? 4294967295))
    with true by (symmetry; apply andb_true_intro; split; lia).
  split; [reflexivity |]. split; [reflexivity |]. split; [exact Hvalue |].
  rewrite uint8ArrayToBN_cons. now rewrite Hvalue.
Qed.

(** Channel id 7. *)
Lemma channelId_bytes_round_trip_witness :
  ∃ bytes,
    channelStateRequest env_scenario fresh_channel
    = (Resolved {| getChannelId := bytes; getSignature := [x01] |},
       fresh_channel)
    ∧ length bytes = 4%nat
    ∧ be_value 0 bytes = 7
    ∧ _uint8ArrayToBN bytes = BN_int 7.
Proof.
  apply (channelId_bytes_round_trip env_scenario fresh_channel [x01]).
  - vm_compute. split; [discriminate | reflexivity].
  - reflexivity.
Defined.

(* ===================================================================== *)
(** ** Nonce skew *)
(* ===================================================================== *)

(** C7 (nonce skew).  The claim asks that, whenever the service's nonce
    is below the on-chain nonce, the state show both.  With on-chain
    nonce 1 and the service at nonce zero, sent as a zero-length array,
    [syncState] resolves and stores the on-chain nonce, but what it
    stores under [currentNonce] is NaN: the service's nonce is lost by
    the decoder, which reads the empty array as NaN. *)
Theorem syncState_loses_empty_nonce :
  be_value 0 [] < 1
  ∧ ∃ s',
      syncState env_nonce_unset fresh_channel = (Resolved RThis, s')
      ∧ read_state s' "nonce" = VUint 1
      ∧ read_state s' "currentNonce" = VBigNumber BN_NaN
      ∧ read_state s' "currentNonce" ≠ VBigNumber (BN_int (be_value 0 [])).
Proof.
  split; [reflexivity |]. eexists.
  split; [eapply syncState_resolved; reflexivity |].
  rewrite !read_state_committed.
  repeat split; try (vm_compute; reflexivity).
  vm_compute. discriminate.
Qed.

(** X14.  When the service sends its nonce in at least one byte and that
    nonce is below the on-chain nonce, and all collaborators answer,
    [syncState] resolves; the state holds the on-chain nonce under
    [nonce] and the service's nonce, as an integer, under [currentNonce],
    and the two integers differ. *)
Theorem syncState_exposes_nonce_skew_nonempty
    (E : Env) (s : store) info sig bytes response (n : N)
    (b : byte) (rest : list byte) :
  channels E (_mpeContract (this s)) (channelId (this s)) = Resolved info →
  signedData E (_account (this s)) (channelId (this s)) = Resolved sig →
  writeUInt32BE (channelId (this s)) = Some bytes →
  getChannelState E (_paymentChannelStateServiceClient (this s))
    {| getChannelId := bytes; getSignature := sig |} = Resolved response →
  prop info "nonce" = VUint n →
  getCurrentNonce response = b :: rest →
  be_value 0 (b :: rest) < Z.of_N n →
  ∃ s',
    syncState E s = (Resolved RThis, s')
    ∧ read_state s' "nonce" = VUint n
    ∧ read_state s' "currentNonce"
      = VBigNumber (BN_int (be_value 0 (b :: rest)))
    ∧ Z.of_N n ≠ be_value 0 (b :: rest).
Proof.
  intros Hchain Hsig Hbytes Hsvc Hn Hnonce Hlt.
  eexists. split; [now apply (syncState_resolved E s info sig bytes response) |].
  rewrite !read_state_committed, merged_nonce, merged_currentNonce, Hn, Hnonce.
  rewrite uint8ArrayToBN_cons. repeat split. lia.
Qed.

(** On-chain nonce 5, service nonce 4. *)
Lemma syncState_exposes_nonce_skew_nonempty_witness :
  ∃ s',
    syncState env_skew fresh_channel = (Resolved RThis, s')
    ∧ read_state s' "nonce" = VUint 5
    ∧ read_state s' "currentNonce" = VBigNumber (BN_int (be_value 0 [x04]))
    ∧ Z.of_N 5 ≠ be_value 0 [x04].
Proof.
  apply (syncState_exposes_nonce_skew_nonempty env_skew fresh_channel
           {[ "nonce" := VUint 5; "expiration" := VUint 900000;
              "value" := VUint 1000 ]}
           [x01] [x00; x00; x00; x07]
           {| getCurrentNonce := [x04]; getCurrentSignedAmount := [x64] |}
           5%N x04 []);
    reflexivity.
Defined.

(* ===================================================================== *)
(** ** The constructed channel *)
(* ===================================================================== *)

(** C8 (unsynced state).  A channel just constructed, on any heap, holds
    a state whose [nonce] and [lastSignedAmount] are the BigNumber zero;
    its other fields are the constructor's arguments. *)
Theorem constructor_state_is_zero
    (id : Z) (web3 account : handle) (service : ServiceClient)
    (mpeContract : handle) (h : gmap loc (gmap string value)) :
  read_state (constructor id web3 account service mpeContract h) "nonce"
    = VBigNumber (BN_int 0)
  ∧ read_state (constructor id web3 account service mpeContract h)
      "lastSignedAmount" = VBigNumber (BN_int 0)
  ∧ channelId (this (constructor id web3 account service mpeContract h)) = id.
Proof.
  unfold read_state. rewrite state_of_constructor. repeat split.
Qed.

(** C10 (absent fields before the first successful sync).  The state of a
    channel just constructed has the two properties [nonce] and
    [lastSignedAmount] and no other: [currentNonce], [expiration],
    [totalAmount] and [availableAmount] read as [undefined], which is not
    zero.  A [syncState] on it either rejects and leaves it so, or
    resolves and installs a record with all six properties; after any run
    of calls the channel is either still as constructed or holds a record
    with all six. *)
Theorem unsynced_state_lacks_merged_fields
    (id : Z) (web3 account : handle) (service : ServiceClient)
    (mpeContract : handle) (h : gmap loc (gmap string value)) :
  let s0 := constructor id web3 account service mpeContract h in
  state_has_keys s0 {[ "nonce"; "lastSignedAmount" ]}
  ∧ read_state s0 "currentNonce" = VUndefined
  ∧ read_state s0 "expiration" = VUndefined
  ∧ read_state s0 "totalAmount" = VUndefined
  ∧ read_state s0 "availableAmount" = VUndefined
  ∧ VUndefined ≠ VBigNumber (BN_int 0)
  ∧ (∀ E, match syncState E s0 with
          | (Rejected _, s') => s' = s0
          | (Resolved _, s') =>
              state_has_keys s'
                {[ "nonce"; "currentNonce"; "expiration"; "totalAmount";
                   "lastSignedAmount"; "availableAmount" ]}
          end)
  ∧ (∀ Es, syncs Es s0 = s0
           ∨ state_has_keys (syncs Es s0)
               {[ "nonce"; "currentNonce"; "expiration"; "totalAmount";
                  "lastSignedAmount"; "availableAmount" ]}).
Proof.
  intros s0.
  assert (Hstep : ∀ E s,
            match syncState E s with
            | (Rejected _, s') => s' = s
            | (Resolved _, s') =>
                state_has_keys s'
                  {[ "nonce"; "currentNonce"; "expiration"; "totalAmount";
                     "lastSignedAmount"; "availableAmount" ]}
            end).
  { intros E s. destruct (syncState E s) as [[r | e] s'] eqn:Hrun.
    - apply syncState_inv in Hrun
        as (info & sig & bytes & response & _ & _ & _ & _ & _ & ->).
      eexists. split; [apply state_of_committed | apply merged_dom].
    - exact (syncState_rejected _ _ _ _ Hrun). }
  split.
  { eexists. split; [apply state_of_constructor |].
    rewrite dom_insert_L, dom_singleton_L. set_solver. }
  unfold read_state. subst s0. rewrite state_of_constructor.
  do 4 (split; [reflexivity |]). split; [discriminate |].
  split; [intros E; apply Hstep |].
  intros Es. generalize (constructor id web3 account service mpeContract h).
  induction Es as [| E rest IH]; intros s; [now left |].
  cbn [syncs]. specialize (Hstep E s).
  destruct (syncState E s) as [[r | e] s1]; cbn [snd].
  - right. destruct (IH s1) as [-> | Hkeys]; [exact Hstep | exact Hkeys].
  - subst s1. apply IH.
Qed.

(* ===================================================================== *)
(** ** What a successful call changes *)
(* ===================================================================== *)

(** C9 (wholesale replacement, frame).  A successful [syncState] puts one
    new record at an address that was unused and points [_state] to it:
    every object of the heap before the call, the previous state record
    among them, is as it was, and the heap gains this one object.  The
    channel id and the references to web3, the account, the contract and
    the service client are unchanged. *)
Theorem syncState_replaces_state_only
    (E : Env) (s s' : store) (r : ref) :
  syncState E s = (Resolved r, s') →
  (state (this s') ∉ dom (heap s))
  ∧ (∃ o, heap s' = <[state (this s') := o]> (heap s))
  ∧ dom (heap s') = {[ state (this s') ]} ∪ dom (heap s)
  ∧ (∀ l, l ∈ dom (heap s) → heap s' !! l = heap s !! l)
  ∧ (state (this s) ∈ dom (heap s) →
     heap s' !! state (this s) = state_of s
     ∧ state (this s') ≠ state (this s))
  ∧ _channelId (this s') = _channelId (this s)
  ∧ _web3 (this s') = _web3 (this s)
  ∧ _account (this s') = _account (this s)
  ∧ _mpeContract (this s') = _mpeContract (this s)
  ∧ _paymentChannelStateServiceClient (this s')
    = _paymentChannelStateServiceClient (this s).
Proof.
  intros Hrun.
  apply syncState_inv in Hrun
    as (info & sig & bytes & response & _ & _ & _ & _ & _ & ->).
  unfold committed, state, state_of. cbn.
  pose proof (is_fresh (dom (heap s))) as Hfresh.
  assert (Hframe : ∀ l : loc, l ∈ dom (heap s) →
            <[fresh (dom (heap s)) := merged_record info response]> (heap s)
              !! l = heap s !! l).
  { intros l Hl. apply lookup_insert_ne. intros Heq. apply Hfresh.
    rewrite Heq. exact Hl. }
  split; [exact Hfresh |]. split; [eauto |].
  split; [apply dom_insert_L |]. split; [exact Hframe |].
  split; [| repeat split].
  intros Hold. split; [now apply Hframe |]. intros Heq.
  apply Hfresh. rewrite Heq. exact Hold.
Qed.

(** The record the constructor made is still in the heap, unchanged, after
    a successful call. *)
Lemma syncState_replaces_state_only_witness :
  ∃ s', syncState env_scenario fresh_channel = (Resolved RThis, s')
        ∧ heap s' !! state (this fresh_channel) = state_of fresh_channel
        ∧ state (this s') ≠ state (this fresh_channel).
Proof.
  exists (snd (syncState env_scenario fresh_channel)).
  assert (Hrun : syncState env_scenario fresh_channel
                 = (Resolved RThis, snd (syncState env_scenario fresh_channel)))
    by (vm_compute; reflexivity).
  split; [exact Hrun |].
  destruct (syncState_replaces_state_only _ _ _ _ Hrun)
    as (_ & _ & _ & _ & Hold & _).
  apply Hold. apply elem_of_dom. eexists. vm_compute. reflexivity.
Defined.

(* ===================================================================== *)
(** ** More on decoding *)
(* ===================================================================== *)

(** The value of a byte array splits into what the accumulator brings and
    what the bytes bring. *)
Lemma be_value_acc (bs : list byte) (acc : Z) :
  be_value acc bs = acc * 256 ^ Z.of_nat (length bs) + be_value 0 bs.
Proof.
  revert acc. induction bs as [| b rest IH]; intros acc.
  - cbn. lia.
  - cbn [be_value length]. rewrite (IH (256 * acc + byte_to_Z b)).
    rewrite (IH (256 * 0 + byte_to_Z b)).
    rewrite Nat2Z.inj_succ, Z.pow_succ_r by lia. lia.
Qed.

Lemma be_value_range (bs : list byte) :
  0 <= be_value 0 bs < 256 ^ Z.of_nat (length bs).
Proof.
  induction bs as [| b rest IH].
  - cbn. lia.
  - cbn [be_value length]. rewrite be_value_acc.
    rewrite Nat2Z.inj_succ, Z.pow_succ_r by lia.
    pose proof (byte_to_Z_range b). nia.
Qed.

Lemma byte_to_Z_inj (a b : byte) : byte_to_Z a = byte_to_Z b → a = b.
Proof.
  unfold byte_to_Z. intros H. apply N2Z.inj in H.
  pose proof (Byte.of_to_N a) as Ha. rewrite H, Byte.of_to_N in Ha.
  now injection Ha.
Qed.

Lemma be_value_inj (a b : list byte) :
  length a = length b → be_value 0 a = be_value 0 b → a = b.
Proof.
  revert b. induction a as [| x a IH]; intros [| y b] Hlen Hval;
    try discriminate; [reflexivity |].
  injection Hlen as Hlen. cbn [be_value] in Hval.
  rewrite (be_value_acc a), (be_value_acc b), <- Hlen in Hval.
  pose proof (be_value_range a) as Ha. pose proof (be_value_range b) as Hb.
  rewrite <- Hlen in Hb.
  pose proof (byte_to_Z_range x). pose proof (byte_to_Z_range y).
  assert (Hpow : 0 < 256 ^ Z.of_nat (length a))
    by (apply Z.pow_pos_nonneg; lia).
  assert (Hxy : byte_to_Z x = byte_to_Z y) by nia.
  rewrite Hxy in Hval.
  f_equal; [now apply byte_to_Z_inj | apply IH; [exact Hlen | lia]].
Qed.

Lemma be_value_leading_zeros (k : nat) (bs : list byte) :
  be_value 0 (replicate k x00 ++ bs) = be_value 0 bs.
Proof. induction k as [| k IH]; [reflexivity | exact IH]. Qed.

(** X1.  A byte array that is not empty never decodes to NaN: it decodes
    to the big-endian integer of its bytes, which is not negative and is
    below 256 to the number of bytes. *)
Theorem uint8ArrayToBN_nonempty (bs : list byte) :
  bs ≠ [] →
  _uint8ArrayToBN bs = BN_int (be_value 0 bs)
  ∧ 0 <= be_value 0 bs < 256 ^ Z.of_nat (length bs).
Proof.
  intros Hne. destruct bs as [| b rest]; [contradiction |].
  split; [apply uint8ArrayToBN_cons | apply be_value_range].
Qed.

Lemma uint8ArrayToBN_nonempty_witness :
  _uint8ArrayToBN [x01; x00] = BN_int (be_value 0 [x01; x00])
  ∧ 0 <= be_value 0 [x01; x00] < 256 ^ Z.of_nat (length [x01; x00]).
Proof. apply (uint8ArrayToBN_nonempty [x01; x00]). discriminate. Defined.

(** X2.  Zero bytes in front of an array that is not empty do not change
    what it decodes to; in front of the empty array they do, since the
    empty array decodes to NaN. *)
Theorem uint8ArrayToBN_leading_zeros (k : nat) (bs : list byte) :
  bs ≠ [] →
  _uint8ArrayToBN (replicate k x00 ++ bs) = _uint8ArrayToBN bs
  ∧ _uint8ArrayToBN (replicate (S k) x00 ++ []) ≠ _uint8ArrayToBN [].
Proof.
  intros Hne. split.
  - destruct bs as [| b rest]; [contradiction |].
    rewrite (uint8ArrayToBN_cons b rest), <- (be_value_leading_zeros k).
    destruct k as [| k]; [apply uint8ArrayToBN_cons |].
    apply (uint8ArrayToBN_cons x00).
  - rewrite app_nil_r, uint8ArrayToBN_zeros. discriminate.
Qed.

Lemma uint8ArrayToBN_leading_zeros_witness :
  _uint8ArrayToBN (replicate 3 x00 ++ [x07]) = _uint8ArrayToBN [x07]
  ∧ _uint8ArrayToBN (replicate 4 x00 ++ []) ≠ _uint8ArrayToBN [].
Proof. apply (uint8ArrayToBN_leading_zeros 3 [x07]). discriminate. Defined.

(** X3.  Two different byte arrays of the same length decode to different
    BigNumbers. *)
Theorem uint8ArrayToBN_injective (a b : list byte) :
  length a = length b → a ≠ b → _uint8ArrayToBN a ≠ _uint8ArrayToBN b.
Proof.
  intros Hlen Hne Hdec. apply Hne.
  destruct a as [| x a], b as [| y b]; try discriminate; [reflexivity |].
  rewrite !uint8ArrayToBN_cons in Hdec. injection Hdec as Hval.
  now apply be_value_inj.
Qed.

Lemma uint8ArrayToBN_injective_witness :
  _uint8ArrayToBN [x01; x00] ≠ _uint8ArrayToBN [x00; x01].
Proof.
  apply (uint8ArrayToBN_injective [x01; x00] [x00; x01]);
    [reflexivity | discriminate].
Defined.

(** X4.  [writeUInt32BE] accepts exactly the integers of [[0, 2^32 - 1]];
    what it writes is four bytes that denote the integer and decode to
    it, so two accepted integers with the same bytes are equal. *)
Theorem writeUInt32BE_accepts_uint32 (v : Z) :
  match writeUInt32BE v with
  | Some bytes =>
      0 <= v <= 4294967295
      ∧ length bytes = 4%nat
      ∧ be_value 0 bytes = v
      ∧ _uint8ArrayToBN bytes = BN_int v
  | None => v < 0 ∨ 4294967295 < v
  end.
Proof.
  unfold writeUInt32BE.
  destruct ((0 <=? v) && (v <=? 4294967295)) eqn:Hrange.
  - apply andb_true_iff in Hrange as [Hlo Hhi].
    apply Z.leb_le in Hlo. apply Z.leb_le in Hhi.
    pose proof (be_value_writeUInt32BE v ltac:(lia)) as Hvalue.
    split; [lia |]. split; [reflexivity |]. split; [exact Hvalue |].
    rewrite uint8ArrayToBN_cons. now rewrite Hvalue.
  - apply andb_false_iff in Hrange as [H | H];
      apply Z.leb_gt in H; lia.
Qed.

(* ===================================================================== *)
(** ** The outcomes of a synchronisation *)
(* ===================================================================== *)

(** X5.  [syncState] consults its collaborators in a fixed order and stops
    at the first that fails: the contract read, the signature, the write
    of the channel id, the service.  It rejects with the very error of
    that step, leaving the store alone, and commits only when all four
    succeeded. *)
Theorem syncState_outcomes (E : Env) (s : store) :
  syncState E s = sync_outcome E s.
Proof.
  unfold sync_outcome.
  destruct (syncState E s) as [[r | e] s'] eqn:Hrun.
  - apply syncState_inv in Hrun
      as (info & sig & bytes & response & -> & -> & -> & -> & -> & ->).
    reflexivity.
  - pose proof (syncState_rejected _ _ _ _ Hrun) as ->.
    destruct (channels E _ _) as [info |] eqn:Hchain.
    + destruct (signedData E _ _) as [sig |] eqn:Hsig.
      * destruct (writeUInt32BE _) as [bytes |] eqn:Hbytes.
        -- destruct (getChannelState E _ _) as [response |] eqn:Hsvc.
           ++ rewrite (syncState_resolved E s info sig bytes response)
                in Hrun by assumption.
              discriminate.
           ++ rewrite <- Hrun. unfold syncState. unfold_M. rewrite Hchain.
              rewrite currentChannelState_run, channelStateRequest_run.
              cbn [fst]. now rewrite Hsig, Hbytes, Hsvc.
        -- rewrite <- Hrun. unfold syncState. unfold_M. rewrite Hchain.
           rewrite currentChannelState_run, channelStateRequest_run.
           cbn [fst]. now rewrite Hsig, Hbytes.
      * rewrite <- Hrun. unfold syncState. unfold_M. rewrite Hchain.
        rewrite currentChannelState_run, channelStateRequest_run.
        cbn [fst]. now rewrite Hsig.
    + rewrite <- Hrun. unfold syncState. unfold_M. now rewrite Hchain.
Qed.

(** One step of a run keeps the channel's identity and every object of the
    heap. *)
Lemma syncState_step_frame (E : Env) (s : store) :
  with_state (this (snd (syncState E s))) (state (this s)) = this s
  ∧ heap s ⊆ heap (snd (syncState E s)).
Proof.
  destruct (syncState E s) as [[r | e] s'] eqn:Hrun; cbn [snd].
  - apply syncState_inv in Hrun
      as (info & sig & bytes & response & _ & _ & _ & _ & _ & ->).
    unfold committed. cbn. split; [now destruct (this s) |].
    apply insert_subseteq, not_elem_of_dom, is_fresh.
  - apply syncState_rejected in Hrun as ->.
    split; [now destruct (this s) | reflexivity].
Qed.

(** X6.  A channel whose id is outside [[0, 2^32 - 1]] cannot be
    synchronised: every [syncState] on it rejects, whatever the
    collaborators answer, and no run of calls changes its store. *)
Theorem syncState_never_resolves_out_of_range (s : store) :
  channelId (this s) < 0 ∨ 4294967295 < channelId (this s) →
  (∀ E, ∃ e, syncState E s = (Rejected e, s))
  ∧ (∀ Es, syncs Es s = s).
Proof.
  intros Hid.
  assert (Hwrite : writeUInt32BE (channelId (this s)) = None).
  { unfold writeUInt32BE.
    destruct ((0 <=? channelId (this s))
              && (channelId (this s) <=? 4294967295)) eqn:Hrange;
      [| reflexivity].
    apply andb_true_iff in Hrange as [Hlo Hhi].
    apply Z.leb_le in Hlo. apply Z.leb_le in Hhi. lia. }
  assert (Hstep : ∀ E, ∃ e, syncState E s = (Rejected e, s)).
  { intros E. rewrite syncState_outcomes. unfold sync_outcome.
    rewrite Hwrite.
    destruct (channels E _ _); [| eauto].
    destruct (signedData E _ _); eauto. }
  split; [exact Hstep |].
  intros Es. induction Es as [| E rest IH]; [reflexivity |].
  cbn [syncs]. destruct (Hstep E) as [e He]. rewrite He. exact IH.
Qed.

Lemma syncState_never_resolves_out_of_range_witness :
  (∀ E, ∃ e, syncState E channel_id_too_large
             = (Rejected e, channel_id_too_large))
  ∧ (∀ Es, syncs Es channel_id_too_large = channel_id_too_large).
Proof.
  apply (syncState_never_resolves_out_of_range channel_id_too_large).
  right. reflexivity.
Defined.

(** X7.  A [syncState] that resolved resolves again against the same
    answers, and then installs a record equal to the one it installed
    before, in a new object: the merged record is a function of the
    answers alone and does not build on the previous state. *)
Theorem syncState_twice (E : Env) (s s' : store) (r : ref) :
  syncState E s = (Resolved r, s') →
  ∃ s'', syncState E s' = (Resolved RThis, s'')
         ∧ state_of s'' = state_of s'
         ∧ state (this s'') ≠ state (this s')
         ∧ heap s' !! state (this s') = state_of s'.
Proof.
  intros Hrun.
  apply syncState_inv in Hrun
    as (info & sig & bytes & response & Hchain & Hsig & Hbytes & Hsvc & _ & ->).
  set (o := merged_record info response).
  exists (committed (committed s o) o).
  split; [now apply (syncState_resolved E _ info sig bytes response) |].
  split; [now rewrite !state_of_committed |].
  split; [| reflexivity].
  unfold committed, state. cbn. intros Heq.
  apply (is_fresh (dom (<[fresh (dom (heap s)) := o]> (heap s)))).
  rewrite Heq. apply elem_of_dom. rewrite lookup_insert_eq. eauto.
Qed.

Lemma syncState_twice_witness :
  ∃ s'', syncState env_scenario (snd (syncState env_scenario fresh_channel))
         = (Resolved RThis, s'')
         ∧ state_of s'' = state_of (snd (syncState env_scenario fresh_channel))
         ∧ state (this s'')
           ≠ state (this (snd (syncState env_scenario fresh_channel)))
         ∧ heap (snd (syncState env_scenario fresh_channel))
             !! state (this (snd (syncState env_scenario fresh_channel)))
           = state_of (snd (syncState env_scenario fresh_channel)).
Proof.
  apply (syncState_twice env_scenario fresh_channel _ RThis).
  vm_compute. reflexivity.
Defined.

(** A run keeps the channel's identity and every object of the heap. *)
Lemma syncs_frame (Es : list Env) (s : store) :
  with_state (this (syncs Es s)) (state (this s)) = this s
  ∧ heap s ⊆ heap (syncs Es s).
Proof.
  revert s. induction Es as [| E rest IH]; intros s; cbn [syncs].
  - split; [now destruct (this s) | reflexivity].
  - destruct (IH (snd (syncState E s))) as [Hid' Hheap'].
    destruct (syncState_step_frame E s) as [Hid Hheap].
    split; [| now transitivity (heap (snd (syncState E s)))].
    rewrite <- Hid at 2. rewrite <- Hid'. reflexivity.
Qed.

(** X8.  Over any run of [syncState] calls, resolved or rejected, the
    channel keeps its id and its references to web3, the account, the
    contract and the service client, and every object that was in the
    heap is still there with the same content: state records are only
    ever added. *)
Theorem syncs_keep_identity_and_heap (Es : list Env) (s : store) :
  _channelId (this (syncs Es s)) = _channelId (this s)
  ∧ _web3 (this (syncs Es s)) = _web3 (this s)
  ∧ _account (this (syncs Es s)) = _account (this s)
  ∧ _mpeContract (this (syncs Es s)) = _mpeContract (this s)
  ∧ _paymentChannelStateServiceClient (this (syncs Es s))
    = _paymentChannelStateServiceClient (this s)
  ∧ heap s ⊆ heap (syncs Es s).
Proof.
  destruct (syncs_frame Es s) as [Hid Hheap].
  pose proof (f_equal _channelId Hid) as E1.
  pose proof (f_equal _web3 Hid) as E2.
  pose proof (f_equal _account Hid) as E3.
  pose proof (f_equal _mpeContract Hid) as E4.
  pose proof (f_equal _paymentChannelStateServiceClient Hid) as E5.
  cbn in E1, E2, E3, E4, E5. repeat split; assumption.
Qed.

(* ===================================================================== *)
(** ** Several channels on one heap *)
(* ===================================================================== *)

(** X9.  Two channels constructed one after the other have two different
    state records; constructing the second leaves the record of the first
    as it was, and no run of [syncState] calls on the first changes the
    record of the second, which still reads as unsynced. *)
Theorem channels_do_not_share_state
    (idA idB : Z) (web3A accountA : handle) (serviceA : ServiceClient)
    (mpeA web3B accountB : handle) (serviceB : ServiceClient) (mpeB : handle)
    (h : gmap loc (gmap string value)) (Es : list Env) :
  let sA := constructor idA web3A accountA serviceA mpeA h in
  let sB := constructor idB web3B accountB serviceB mpeB (heap sA) in
  let afterA := syncs Es {| this := this sA; heap := heap sB |} in
  state (this sB) ≠ state (this sA)
  ∧ heap sB !! state (this sA) = state_of sA
  ∧ heap afterA !! state (this sB) = state_of sB
  ∧ prop (default ∅ (heap afterA !! state (this sB))) "nonce"
    = VBigNumber (BN_int 0)
  ∧ prop (default ∅ (heap afterA !! state (this sB))) "availableAmount"
    = VUndefined.
Proof.
  intros sA sB afterA.
  pose proof (is_fresh (dom (heap sA))) as HfreshB.
  assert (HinA : state (this sA) ∈ dom (heap sA)).
  { apply elem_of_dom. exists
      {[ "nonce" := VBigNumber (BN_int 0);
         "lastSignedAmount" := VBigNumber (BN_int 0) ]}.
    apply state_of_constructor. }
  assert (Hne : state (this sB) ≠ state (this sA)).
  { intros Heq. apply HfreshB.
    change (fresh (dom (heap sA))) with (state (this sB)).
    rewrite Heq. exact HinA. }
  assert (HkeepA : heap sB !! state (this sA) = state_of sA).
  { unfold sB at 1, constructor at 1. cbn [heap].
    rewrite lookup_insert_ne; [reflexivity |].
    intros Heq. apply Hne. exact Heq. }
  assert (HzeroB : state_of sB
                   = Some {[ "nonce" := VBigNumber (BN_int 0);
                             "lastSignedAmount" := VBigNumber (BN_int 0) ]})
    by apply state_of_constructor.
  assert (HkeepB : heap afterA !! state (this sB) = state_of sB).
  { destruct (syncs_frame Es {| this := this sA; heap := heap sB |})
      as [_ Hsub].
    rewrite HzeroB. eapply lookup_weaken; [exact HzeroB | exact Hsub]. }
  split; [exact Hne |]. split; [exact HkeepA |]. split; [exact HkeepB |].
  rewrite HkeepB, HzeroB. split; reflexivity.
Qed.

(* ===================================================================== *)
(** ** Answers that lack a property *)
(* ===================================================================== *)

(** X10.  When the record the contract answers with has no [value], and
    all collaborators answer, [syncState] still resolves: nothing checks
    the record.  The state then has [totalAmount] undefined and a NaN
    [availableAmount]. *)
Theorem syncState_contract_answer_without_value
    (E : Env) (s : store) info sig bytes response :
  channels E (_mpeContract (this s)) (channelId (this s)) = Resolved info →
  signedData E (_account (this s)) (channelId (this s)) = Resolved sig →
  writeUInt32BE (channelId (this s)) = Some bytes →
  getChannelState E (_paymentChannelStateServiceClient (this s))
    {| getChannelId := bytes; getSignature := sig |} = Resolved response →
  info !! "value" = None →
  ∃ s',
    syncState E s = (Resolved RThis, s')
    ∧ read_state s' "totalAmount" = VUndefined
    ∧ read_state s' "availableAmount" = VNumber S754_nan
    ∧ read_state s' "lastSignedAmount"
      = VBigNumber (_uint8ArrayToBN (getCurrentSignedAmount response)).
Proof.
  intros Hchain Hsig Hbytes Hsvc Hmissing.
  eexists. split; [now apply (syncState_resolved E s info sig bytes response) |].
  rewrite !read_state_committed, merged_totalAmount, merged_availableAmount,
    merged_lastSignedAmount.
  unfold prop at 1 2. rewrite Hmissing. repeat split.
Qed.

Lemma syncState_contract_answer_without_value_witness :
  ∃ s',
    syncState env_no_value fresh_channel = (Resolved RThis, s')
    ∧ read_state s' "totalAmount" = VUndefined
    ∧ read_state s' "availableAmount" = VNumber S754_nan
    ∧ read_state s' "lastSignedAmount" = VBigNumber (_uint8ArrayToBN [x64]).
Proof.
  apply (syncState_contract_answer_without_value env_no_value fresh_channel
           {[ "nonce" := VUint 3; "expiration" := VUint 900000 ]}
           [x01] [x00; x00; x00; x07]
           {| getCurrentNonce := [x03]; getCurrentSignedAmount := [x64] |});
    reflexivity.
Defined.

(* ===================================================================== *)
(** ** Amounts below 2^53 *)
(* ===================================================================== *)

(** X11.  When the contract reports a deposit below 2^53 and the service
    a signed amount, in at least one byte, below 2^53, and all
    collaborators answer, the available amount is the exact difference of
    the two integers: negative, not zero, when more is signed than
    deposited. *)
Theorem syncState_available_amount_exact_small
    (E : Env) (s : store) info sig bytes response (t : N)
    (b : byte) (rest : list byte) :
  channels E (_mpeContract (this s)) (channelId (this s)) = Resolved info →
  signedData E (_account (this s)) (channelId (this s)) = Resolved sig →
  writeUInt32BE (channelId (this s)) = Some bytes →
  getChannelState E (_paymentChannelStateServiceClient (this s))
    {| getChannelId := bytes; getSignature := sig |} = Resolved response →
  prop info "value" = VUint t →
  getCurrentSignedAmount response = b :: rest →
  Z.of_N t < 2 ^ 53 → be_value 0 (b :: rest) < 2 ^ 53 →
  ∃ s' x,
    syncState E s = (Resolved RThis, s')
    ∧ read_state s' "totalAmount" = VUint t
    ∧ read_state s' "lastSignedAmount"
      = VBigNumber (BN_int (be_value 0 (b :: rest)))
    ∧ read_state s' "availableAmount" = VNumber x
    ∧ Number.to_Z x = Some (Z.of_N t - be_value 0 (b :: rest)).
Proof.
  intros Hchain Hsig Hbytes Hsvc Ht Hamount Htb Hlb.
  pose proof (be_value_range (b :: rest)) as Hrange.
  assert (Hdec : _uint8ArrayToBN (getCurrentSignedAmount response)
                 = BN_int (be_value 0 (b :: rest)))
    by (rewrite Hamount; apply uint8ArrayToBN_cons).
  destruct (syncState_available_amount_exact_below_2_53
              E s info sig bytes response t (be_value 0 (b :: rest))
              Hchain Hsig Hbytes Hsvc Ht Hdec Htb ltac:(lia))
    as (s' & x & Hrun & Havail & Hexact).
  exists s', x. split; [exact Hrun |].
  rewrite (syncState_resolved E s info sig bytes response) in Hrun
    by assumption.
  injection Hrun as <-.
  rewrite !read_state_committed, merged_totalAmount, merged_lastSignedAmount,
    Ht, Hdec.
  rewrite read_state_committed in Havail. repeat split; assumption.
Qed.

(** 1000 deposited and 100 signed: 900 available. *)
Lemma syncState_available_amount_exact_small_witness :
  ∃ s' x,
    syncState env_skew fresh_channel = (Resolved RThis, s')
    ∧ read_state s' "totalAmount" = VUint 1000
    ∧ read_state s' "lastSignedAmount" = VBigNumber (BN_int (be_value 0 [x64]))
    ∧ read_state s' "availableAmount" = VNumber x
    ∧ Number.to_Z x = Some (Z.of_N 1000 - be_value 0 [x64]).
Proof.
  apply (syncState_available_amount_exact_small env_skew fresh_channel
           {[ "nonce" := VUint 5; "expiration" := VUint 900000;
              "value" := VUint 1000 ]}
           [x01] [x00; x00; x00; x07]
           {| getCurrentNonce := [x04]; getCurrentSignedAmount := [x64] |}
           1000%N x64 []);
    reflexivity.
Defined.

(* ===================================================================== *)
(** ** Transactions and the cached state *)
(* ===================================================================== *)

(** What the three transaction methods come to: the contract call with
    the channel's account and id, on an untouched store. *)
Lemma transactions_run
    {R : Type} (X : Escrow R) (s : store) (expiration amount : value) :
  addFunds X amount s
  = (channelAddFunds X (_mpeContract (this s)) (_account (this s))
       (channelId (this s)) amount, s)
  ∧ extendExpiration X expiration s
    = (channelExtend X (_mpeContract (this s)) (_account (this s))
         (channelId (this s)) expiration, s)
  ∧ extendAndAddFunds X expiration amount s
    = (channelExtendAndAddFunds X (_mpeContract (this s)) (_account (this s))
         (channelId (this s)) expiration amount, s)
  ∧ (∀ k, read_state (snd (addFunds X amount s)) k = read_state s k)
  ∧ (∀ E, syncState E (snd (extendAndAddFunds X expiration amount s))
          = syncState E s).
Proof. repeat split. Qed.

(** X12.  Transactions never refresh the cached state.  After any
    sequence of [syncState], [addFunds], [extendExpiration] and
    [extendAndAddFunds] calls, in any order and whatever each resolves or
    rejects with, the channel and the heap are what the [syncState] calls
    of the sequence alone would have left: a channel on which only
    transactions were made is exactly as it was. *)
Theorem transactions_do_not_refresh_state
    {R : Type} (cs : list (call R)) (s : store) :
  after_calls cs s = syncs (syncState_calls cs) s
  ∧ (syncState_calls cs = [] → after_calls cs s = s).
Proof.
  assert (Hrun : ∀ (l : list (call R)) (s0 : store),
            after_calls l s0 = syncs (syncState_calls l) s0).
  { induction l as [| c rest IH]; intros s0; [reflexivity |].
    cbn [after_calls]. rewrite IH.
    destruct c as [E | X amount | X expiration | X expiration amount];
      cbn [after_call syncState_calls syncs]; [reflexivity | | |].
    - destruct (transactions_run X s0 amount amount) as (-> & _).
      reflexivity.
    - destruct (transactions_run X s0 expiration expiration) as (_ & -> & _).
      reflexivity.
    - destruct (transactions_run X s0 expiration amount) as (_ & _ & -> & _).
      reflexivity. }
  split; [apply Hrun |].
  intros Hnone. now rewrite Hrun, Hnone.
Qed.

(** Funds added twice and the expiration extended on a channel that was
    never synchronised: it still is as constructed. *)
Lemma transactions_do_not_refresh_state_witness :
  after_calls
    [ CallAddFunds escrow_accepting (VUint 10);
      CallExtendExpiration escrow_accepting (VUint 900001);
      CallAddFunds escrow_accepting (VUint 5) ] fresh_channel
  = fresh_channel.
Proof.
  apply (transactions_do_not_refresh_state
           [ CallAddFunds escrow_accepting (VUint 10);
             CallExtendExpiration escrow_accepting (VUint 900001);
             CallAddFunds escrow_accepting (VUint 5) ] fresh_channel).
  reflexivity.
Defined.

(* ===================================================================== *)
(** ** The query of the service *)
(* ===================================================================== *)

(** X13.  The query of the service neither reads the contract nor touches
    the store: [_currentChannelState] gives the same outcome whatever the
    contract would answer, and leaves channel and heap as they are. *)
Theorem currentChannelState_ignores_contract
    (E : Env) (s : store)
    (other : handle → Z → completion (gmap string value)) :
  _currentChannelState
    {| channels := other;
       signedData := signedData E;
       getChannelState := getChannelState E |} s
  = _currentChannelState E s
  ∧ snd (_currentChannelState E s) = s.
Proof.
  rewrite !currentChannelState_run, !channelStateRequest_run.
  split; reflexivity.
Qed.
